(** * yxlib/ai: finite-state machine and behavior tree

    A shallow embedding of the finite-state machine of [src/fsm.go], of the
    behavior nodes and the behavior tree, and of the leaf node [AgentBNode]
    of [src/agent.go], followed by the properties that the specification
    states about them.

    [src/fsm.go] holds two states of the machine: an earlier one that keeps
    its transitions in a map by name and has no [Start], and the one with
    [NewFSM(id)], the ordered transition table, [Start] and [Stop].  The
    specification describes the second, which is the one embedded here.

    Conventions of the embedding.
    - A Go method with a pointer receiver that mutates its receiver is a
      function that returns the receiver's new value.
    - The callbacks supplied by the owner of a machine or of a tree (the
      hooks of an [FSMState], the gate of an [FSMAction], the handler behind
      an [AgentBNodeListener]) act on an external world of an arbitrary type
      [W].  They do not re-enter the machine or the tree that calls them;
      a leaf handler may call [UpdateStep] on the node it is given.
    - Every invocation of a callback is appended to a ghost [trace], so that
      "is invoked", "exactly once" and "before" can be stated.
    - A composite node owns its children: the same node is not stored twice
      in a tree.
    - The nodes of a tree are of the node types of the package. *)

From Stdlib Require Import ZArith Lia.
From stdpp Require Import base option list strings gmap.

Set Warnings "-register-all".

Open Scope Z_scope.
Open Scope string_scope.
Open Scope list_scope.

(** ** The external world and the trace of callbacks *)

(** One entry per call of a callback.  A state or an action is named by the
    key under which the machine found it; a leaf by its node id and its
    action id. *)
Inductive Call (Param : Type) : Type :=
| CallOnEnter (name fromState : string)
| CallOnUpdate (name : string) (dt : Z)
| CallOnExit (name toState : string)
| CallDoAction (name evt : string) (param : list Param)
| CallOnBNodeAction (nodeId actionId : Z).

Arguments CallOnEnter {Param} name fromState.
Arguments CallOnUpdate {Param} name dt.
Arguments CallOnExit {Param} name toState.
Arguments CallDoAction {Param} name evt param.
Arguments CallOnBNodeAction {Param} nodeId actionId.

Record World (W Param : Type) : Type := mkWorld {
  ext : W;
  trace : list (Call Param)
}.

Arguments mkWorld {W Param} ext trace.
Arguments ext {W Param} w.
Arguments trace {W Param} w.

(** Code that calls back into the world: a state transformer. *)
Definition M (W Param A : Type) : Type := World W Param -> A * World W Param.

Definition ret {W Param A} (a : A) : M W Param A := fun w => (a, w).

Definition bind {W Param A B} (m : M W Param A) (k : A -> M W Param B)
  : M W Param B :=
  fun w => let (a, w') := m w in k a w'.

Notation "'call' x <- m 'in' k" := (bind m (fun x => k))
  (at level 10, x name, m at level 100, k at level 200).
Notation "'run' m 'in' k" := (bind m (fun _ => k))
  (at level 10, m at level 100, k at level 200).

(** Number of calls in a trace that satisfy [p]. *)
Definition count_calls {Param} (p : Call Param -> bool)
  (t : list (Call Param)) : nat :=
  length (List.filter p t).

Definition is_enter_or_exit {Param} (e : Call Param) : bool :=
  match e with
  | CallOnEnter _ _ | CallOnExit _ _ => true
  | _ => false
  end.

Definition is_DoAction {Param} (e : Call Param) : bool :=
  match e with
  | CallDoAction _ _ _ => true
  | _ => false
  end.

Definition is_OnBNodeAction {Param} (e : Call Param) : bool :=
  match e with
  | CallOnBNodeAction _ _ => true
  | _ => false
  end.

(** ** The finite-state machine ([src/fsm.go]) *)

Module Fsm.

(** The sentinel errors of the package; a Go [error] that is [nil] is
    [None : option error]. *)
Inductive error : Type :=
| ErrNameLenZero
| ErrStatNil
| ErrActNil
| ErrTranNil
| ErrTranNotExist
| ErrEvtEmpty
| ErrNoFirstStat
| ErrNoOldStat
| ErrFromStatNotExist
| ErrToStatNotExist.

#[global] Instance error_eq_dec : EqDecision error.
Proof. solve_decision. Defined.

(** The error kinds that the specification names: the ten kinds of its
    error-handling section, and the two that only its description of
    [AddTransition] uses. *)
Inductive ErrorKind : Type :=
| EmptyName
| NilState
| NilAction
| NilTransition
| TransitionNotFound
| EmptyEvent
| NoFirstState
| NoHistory
| FromStateNotFound
| ToStateNotFound
| EmptyFrom
| EmptyTo.

#[global] Instance ErrorKind_eq_dec : EqDecision ErrorKind.
Proof. solve_decision. Defined.

(** The kind of each sentinel, in the order in which both lists are
    written. *)
Definition kind_of (e : error) : ErrorKind :=
  match e with
  | ErrNameLenZero => EmptyName
  | ErrStatNil => NilState
  | ErrActNil => NilAction
  | ErrTranNil => NilTransition
  | ErrTranNotExist => TransitionNotFound
  | ErrEvtEmpty => EmptyEvent
  | ErrNoFirstStat => NoFirstState
  | ErrNoOldStat => NoHistory
  | ErrFromStatNotExist => FromStateNotFound
  | ErrToStatNotExist => ToStateNotFound
  end.

Section Machine.

Context {W Param : Type}.

Abbreviation World := (World W Param).
Abbreviation M := (M W Param).

(** [type FSMState interface]. *)
Record FSMState : Type := {
  stat_GetName : string;
  OnEnter : string -> W -> W;
  OnUpdate : Z -> W -> W;
  OnExit : string -> W -> W
}.

(** [type FSMAction interface]. *)
Record FSMAction : Type := {
  act_GetName : string;
  DoAction : string -> list Param -> W -> bool * W
}.

Record FSMTransition : Type := NewFSMTransition {
  From : string;
  Event : string;
  To : string;
  Action : string
}.

Record FSM : Type := mkFSM {
  id : Z;
  state : string;
  oldStates : list string;
  mapName2State : gmap string FSMState;
  mapName2Action : gmap string FSMAction;
  transitions : list FSMTransition
}.

Definition NewFSM (id : Z) : FSM :=
  {| id := id;
     state := "";
     oldStates := [];
     mapName2State := empty;
     mapName2Action := empty;
     transitions := [] |}.

Definition GetID (f : FSM) : Z := id f.

Definition GetCurState (f : FSM) : string := state f.

Definition set_state (f : FSM) (s : string) : FSM :=
  {| id := id f; state := s; oldStates := oldStates f;
     mapName2State := mapName2State f;
     mapName2Action := mapName2Action f;
     transitions := transitions f |}.

Definition set_oldStates (f : FSM) (l : list string) : FSM :=
  {| id := id f; state := state f; oldStates := l;
     mapName2State := mapName2State f;
     mapName2Action := mapName2Action f;
     transitions := transitions f |}.

Definition set_mapName2State (f : FSM) (m : gmap string FSMState) : FSM :=
  {| id := id f; state := state f; oldStates := oldStates f;
     mapName2State := m;
     mapName2Action := mapName2Action f;
     transitions := transitions f |}.

Definition set_mapName2Action (f : FSM) (m : gmap string FSMAction) : FSM :=
  {| id := id f; state := state f; oldStates := oldStates f;
     mapName2State := mapName2State f;
     mapName2Action := m;
     transitions := transitions f |}.

Definition set_transitions (f : FSM) (l : list FSMTransition) : FSM :=
  {| id := id f; state := state f; oldStates := oldStates f;
     mapName2State := mapName2State f;
     mapName2Action := mapName2Action f;
     transitions := l |}.

(** [len(s) == 0]. *)
Definition len0 (s : string) : bool := Nat.eqb (String.length s) 0.

(** A [nil] interface value is [None]. *)
Definition AddState (f : FSM) (name : string) (stat : option FSMState)
  : option error * FSM :=
  if len0 name then (Some ErrNameLenZero, f)
  else match stat with
       | None => (Some ErrStatNil, f)
       | Some st => (None, set_mapName2State f (<[name := st]> (mapName2State f)))
       end.

Definition RemoveState (f : FSM) (name : string) : FSM :=
  match mapName2State f !! name with
  | Some _ => set_mapName2State f (delete name (mapName2State f))
  | None => f
  end.

Definition GetState (f : FSM) (name : string) : option FSMState :=
  mapName2State f !! name.

Definition AddAction (f : FSM) (name : string) (act : option FSMAction)
  : option error * FSM :=
  if len0 name then (Some ErrNameLenZero, f)
  else match act with
       | None => (Some ErrActNil, f)
       | Some a => (None, set_mapName2Action f (<[name := a]> (mapName2Action f)))
       end.

Definition RemoveAction (f : FSM) (name : string) : FSM :=
  match mapName2Action f !! name with
  | Some _ => set_mapName2Action f (delete name (mapName2Action f))
  | None => f
  end.

Definition GetAction (f : FSM) (name : string) : option FSMAction :=
  mapName2Action f !! name.

Definition AddTransition (f : FSM) (from evt to action : string)
  : option error * FSM :=
  if len0 from then (Some ErrFromStatNotExist, f)
  else if len0 evt then (Some ErrEvtEmpty, f)
  else if len0 to then (Some ErrToStatNotExist, f)
  else
    let tran := NewFSMTransition from evt to action in
    (None, set_transitions f (transitions f ++ [tran])).

(** [tran.From == from && tran.Event == evt]. *)
Definition tran_matches (from evt : string) (tran : FSMTransition) : bool :=
  String.eqb (From tran) from && String.eqb (Event tran) evt.

(** The loop of [RemoveTransition]: drop the first match. *)
Fixpoint remove_first (from evt : string) (l : list FSMTransition)
  : list FSMTransition :=
  match l with
  | [] => []
  | tran :: rest =>
      if tran_matches from evt tran then rest
      else tran :: remove_first from evt rest
  end.

Definition RemoveTransition (f : FSM) (from evt : string) : FSM :=
  if len0 from then f
  else if len0 evt then f
  else set_transitions f (remove_first from evt (transitions f)).

(** The loop of [GetTransition]: the first match. *)
Fixpoint find_first (from evt : string) (l : list FSMTransition)
  : option FSMTransition :=
  match l with
  | [] => None
  | tran :: rest =>
      if tran_matches from evt tran then Some tran
      else find_first from evt rest
  end.

Definition GetTransition (f : FSM) (from evt : string)
  : option FSMTransition :=
  if len0 from then None
  else if len0 evt then None
  else find_first from evt (transitions f).

(** Calls of the hooks: the hook acts on the external world and the call is
    recorded. *)
Definition call_OnEnter (name : string) (stat : FSMState) (fromState : string)
  : M unit :=
  fun w => (tt, mkWorld (OnEnter stat fromState (ext w))
                        (trace w ++ [CallOnEnter name fromState])).

Definition call_OnUpdate (name : string) (stat : FSMState) (dt : Z)
  : M unit :=
  fun w => (tt, mkWorld (OnUpdate stat dt (ext w))
                        (trace w ++ [CallOnUpdate name dt])).

Definition call_OnExit (name : string) (stat : FSMState) (toState : string)
  : M unit :=
  fun w => (tt, mkWorld (OnExit stat toState (ext w))
                        (trace w ++ [CallOnExit name toState])).

Definition call_DoAction (name : string) (act : FSMAction) (evt : string)
  (param : list Param) : M bool :=
  fun w => let (succ, e) := DoAction act evt param (ext w) in
           (succ, mkWorld e (trace w ++ [CallDoAction name evt param])).

Definition Start (f : FSM) (firstState : string) : M (option error * FSM) :=
  if len0 firstState then ret (Some ErrNoFirstStat, f)
  else match GetState f firstState with
       | Some stat =>
           run call_OnEnter firstState stat "" in
           ret (None, set_state f firstState)
       | None => ret (None, f)
       end.

Definition Stop (f : FSM) : M FSM :=
  if len0 (state f) then ret f
  else match GetState f (state f) with
       | Some stat => run call_OnExit (state f) stat "" in ret f
       | None => ret f
       end.

Definition Update (f : FSM) (dt : Z) : M FSM :=
  match GetState f (state f) with
  | Some stat => run call_OnUpdate (state f) stat dt in ret f
  | None => ret f
  end.

(** The tail of [Trigger], after the gate: exit, enter, push, move. *)
Definition do_transition (f : FSM) (oldStat newStat : FSMState)
  (triggerTran : FSMTransition) : M (option error * FSM) :=
  run call_OnExit (state f) oldStat (To triggerTran) in
  run call_OnEnter (To triggerTran) newStat (state f) in
  ret (None, set_state (set_oldStates f (oldStates f ++ [state f]))
                       (To triggerTran)).

Definition Trigger (f : FSM) (evt : string) (param : list Param)
  : M (option error * FSM) :=
  if len0 evt then ret (Some ErrEvtEmpty, f)
  else if len0 (state f) then ret (Some ErrNoFirstStat, f)
  else match GetTransition f (state f) evt with
  | None => ret (Some ErrTranNotExist, f)
  | Some triggerTran =>
    match GetState f (state f) with
    | None => ret (Some ErrFromStatNotExist, f)
    | Some oldStat =>
      match GetState f (To triggerTran) with
      | None => ret (Some ErrToStatNotExist, f)
      | Some newStat =>
        match GetAction f (Action triggerTran) with
        | Some act =>
            call succ <- call_DoAction (Action triggerTran) act evt param in
            if negb succ then ret (None, f)
            else do_transition f oldStat newStat triggerTran
        | None => do_transition f oldStat newStat triggerTran
        end
      end
    end
  end.

(** [PopState].  [idx] is in range once the stack is not empty, so the
    index expression [f.oldStates[idx]] cannot fail; the last branch is
    never taken ([oldStates_top]). *)
Definition PopState (f : FSM) : M (option error * FSM) :=
  if Nat.eqb (length (oldStates f)) 0 then ret (Some ErrNoOldStat, f)
  else match GetState f (state f) with
  | None => ret (Some ErrFromStatNotExist, f)
  | Some oldStat =>
    let idx := (length (oldStates f) - 1)%nat in
    match oldStates f !! idx with
    | Some top =>
      match GetState f top with
      | None => ret (Some ErrToStatNotExist, f)
      | Some newStat =>
          run call_OnExit (state f) oldStat top in
          run call_OnEnter top newStat (state f) in
          ret (None, set_oldStates (set_state f top) (take idx (oldStates f)))
      end
    | None => ret (Some ErrNoOldStat, f)
    end
  end.

(** The gate of a matched transition lets the event through: the action
    that the transition names is not registered, or its [DoAction] answers
    [true] in the current world. *)
Definition not_vetoed (f : FSM) (triggerTran : FSMTransition) (evt : string)
  (param : list Param) (w : World) : Prop :=
  match GetAction f (Action triggerTran) with
  | Some act => fst (DoAction act evt param (ext w)) = true
  | None => True
  end.

(** The world once the gate, if there is one, has run. *)
Definition after_gate (f : FSM) (triggerTran : FSMTransition) (evt : string)
  (param : list Param) (w : World) : World :=
  match GetAction f (Action triggerTran) with
  | Some act => snd (call_DoAction (Action triggerTran) act evt param w)
  | None => w
  end.

(** The three parts of what a call returns. *)
Definition err_of {A} (r : option error * A * World) : option error :=
  fst (fst r).
Definition fsm_of (r : option error * FSM * World) : FSM := snd (fst r).
Definition world_of {A} (r : A * World) : World := snd r.

End Machine.

Arguments FSMState : clear implicits.
Arguments FSMAction : clear implicits.
Arguments FSM : clear implicits.

End Fsm.

(** ** Behavior nodes and the behavior tree *)

Module Bt.

(** [type BNodeState uint8] with its four declared constants. *)
Inductive BNodeState : Type :=
| BNODE_STAT_NOT_EXECUTE
| BNODE_STAT_EXECUTING
| BNODE_STAT_SUCC
| BNODE_STAT_FAIL.

#[global] Instance BNodeState_eq_dec : EqDecision BNodeState.
Proof. solve_decision. Defined.

Inductive BNodeType : Type :=
| BNODE_TYPE_ACTION
| BNODE_TYPE_SEQUENCE
| BNODE_TYPE_SELECT
| BNODE_TYPE_PARALLEL.

Definition BTREE_ROOT_NODE_ID : Z := 1.

(** The [uint32] fields are integers in [0, 2^32). *)
Record BaseBehaviorNode : Type := mkBase {
  nodeId : Z;
  nodeType : BNodeType;
  actionId : Z;
  state : BNodeState;
  step : Z;
  maxStep : Z
}.

Definition NewBaseBehaviorNode (nodeId actionId maxStep : Z)
  : BaseBehaviorNode :=
  {| nodeId := nodeId;
     nodeType := BNODE_TYPE_ACTION;
     actionId := actionId;
     state := BNODE_STAT_NOT_EXECUTE;
     step := 0;
     maxStep := maxStep |}.

(** [n.step++] on a [uint32]. *)
Definition UpdateStep (n : BaseBehaviorNode) : BaseBehaviorNode :=
  {| nodeId := nodeId n; nodeType := nodeType n; actionId := actionId n;
     state := state n; step := (step n + 1) mod 2 ^ 32;
     maxStep := maxStep n |}.

Definition SetState (n : BaseBehaviorNode) (stat : BNodeState)
  : BaseBehaviorNode :=
  {| nodeId := nodeId n; nodeType := nodeType n; actionId := actionId n;
     state := stat; step := step n; maxStep := maxStep n |}.

Definition set_nodeType (n : BaseBehaviorNode) (t : BNodeType)
  : BaseBehaviorNode :=
  {| nodeId := nodeId n; nodeType := t; actionId := actionId n;
     state := state n; step := step n; maxStep := maxStep n |}.

Definition base_IsCompleted (n : BaseBehaviorNode) : bool :=
  if decide (state n = BNODE_STAT_SUCC) then true
  else if decide (state n = BNODE_STAT_FAIL) then true
  else false.

Section Nodes.

Context {W Param : Type}.

Abbreviation World := (World W Param).
Abbreviation M := (M W Param).

(** What one run of a leaf handler does: the state it returns, how many
    times it called [UpdateStep] on the node it was given, and the external
    world it leaves. *)
Record ActionResult : Type := mkResult {
  res_state : BNodeState;
  res_steps : nat;
  res_ext : W
}.

(** [type AgentBNodeListener interface]; the handler sees the node through
    its getters. *)
Record AgentBNodeListener : Type := {
  OnBNodeAction : BaseBehaviorNode -> list Param -> W -> ActionResult
}.

(** The implementations of [BehaviorNode]: a bare [*BaseBehaviorNode], a
    bare [*ControlNode], the three composites, and the leaf of
    [src/agent.go].  A [nil] listener is [None]. *)
Inductive BehaviorNode : Type :=
| BaseNode (base : BaseBehaviorNode)
| ControlNode (base : BaseBehaviorNode) (subNodes : list BehaviorNode)
| SequenceNode (base : BaseBehaviorNode) (subNodes : list BehaviorNode)
| SelectNode (base : BaseBehaviorNode) (subNodes : list BehaviorNode)
| ParallelNode (base : BaseBehaviorNode) (subNodes : list BehaviorNode)
| AgentBNode (base : BaseBehaviorNode) (listener : option AgentBNodeListener)
    (params : list Param).

(** The embedded [*BaseBehaviorNode]. *)
Definition base_of (n : BehaviorNode) : BaseBehaviorNode :=
  match n with
  | BaseNode b | ControlNode b _ | SequenceNode b _ | SelectNode b _
  | ParallelNode b _ | AgentBNode b _ _ => b
  end.

Definition children (n : BehaviorNode) : list BehaviorNode :=
  match n with
  | ControlNode _ l | SequenceNode _ l | SelectNode _ l | ParallelNode _ l => l
  | BaseNode _ | AgentBNode _ _ _ => []
  end.

Definition GetID (n : BehaviorNode) : Z := nodeId (base_of n).
Definition GetActionID (n : BehaviorNode) : Z := actionId (base_of n).
Definition GetType (n : BehaviorNode) : BNodeType := nodeType (base_of n).
Definition GetStep (n : BehaviorNode) : Z := step (base_of n).
Definition GetMaxStep (n : BehaviorNode) : Z := maxStep (base_of n).
Definition GetState (n : BehaviorNode) : BNodeState := state (base_of n).
Definition IsCompleted (n : BehaviorNode) : bool :=
  base_IsCompleted (base_of n).

Definition NewControlNode (nodeId : Z) (nodeType : BNodeType)
  : BaseBehaviorNode * list BehaviorNode :=
  (set_nodeType (NewBaseBehaviorNode nodeId 0 0) nodeType, []).

Definition NewSequenceNode (nodeId : Z) : BehaviorNode :=
  let (b, l) := NewControlNode nodeId BNODE_TYPE_SEQUENCE in SequenceNode b l.

Definition NewSelectNode (nodeId : Z) : BehaviorNode :=
  let (b, l) := NewControlNode nodeId BNODE_TYPE_SELECT in SelectNode b l.

Definition NewParallelNode (nodeId : Z) : BehaviorNode :=
  let (b, l) := NewControlNode nodeId BNODE_TYPE_PARALLEL in ParallelNode b l.

Definition NewAgentBNode (nodeId actionId maxStep : Z)
  (listener : option AgentBNodeListener) (param : list Param)
  : BehaviorNode :=
  AgentBNode (NewBaseBehaviorNode nodeId actionId maxStep) listener param.

(** [AddChild]: a [nil] child ([None]) is ignored; only the control nodes
    keep children. *)
Definition AddChild (n : BehaviorNode) (child : option BehaviorNode)
  : BehaviorNode :=
  match child with
  | None => n
  | Some c =>
      match n with
      | ControlNode b l => ControlNode b (l ++ [c])
      | SequenceNode b l => SequenceNode b (l ++ [c])
      | SelectNode b l => SelectNode b (l ++ [c])
      | ParallelNode b l => ParallelNode b (l ++ [c])
      | BaseNode _ | AgentBNode _ _ _ => n
      end
  end.

Fixpoint GetChildByID_loop (nodeId : Z) (l : list BehaviorNode)
  : option BehaviorNode :=
  match l with
  | [] => None
  | exist_ :: rest =>
      if Z.eqb (GetID exist_) nodeId then Some exist_
      else GetChildByID_loop nodeId rest
  end.

Definition GetChildByID (n : BehaviorNode) (nodeId : Z)
  : option BehaviorNode :=
  GetChildByID_loop nodeId (children n).

(** The call of the handler of a leaf: it acts on the external world, the
    call is recorded, and its calls of [UpdateStep] reach the node. *)
Definition call_OnBNodeAction (l : AgentBNodeListener)
  (a : BaseBehaviorNode) (params : list Param)
  : M (BNodeState * BaseBehaviorNode) :=
  fun w =>
    let r := OnBNodeAction l a params (ext w) in
    ((res_state r, Nat.iter (res_steps r) UpdateStep a),
     mkWorld (res_ext r)
             (trace w ++ [CallOnBNodeAction (nodeId a) (actionId a)])).

(** The loops of the three composites, over the executor of a child. *)
Section Loops.

Variable exec : BehaviorNode -> M BehaviorNode.

(** Puts the child that the loop has passed back in front of the children
    that the rest of the loop returns. *)
Definition passed {A} (child : BehaviorNode)
  (r : list BehaviorNode * A) : list BehaviorNode * A :=
  (child :: fst r, snd r).

(** The [for] of [SequenceNode.Execute]; [st] is [n.state]. *)
Fixpoint sequence_loop (i childLen : Z) (subNodes : list BehaviorNode)
  (st : BNodeState) : M (list BehaviorNode * BNodeState) :=
  match subNodes with
  | [] => ret ([], st)
  | child :: rest =>
      if IsCompleted child then
        call r <- sequence_loop (i + 1) childLen rest st in
        ret (passed child r)
      else
        call child' <- exec child in
        if negb (IsCompleted child') then ret (child' :: rest, st)
        else if decide (GetState child' = BNODE_STAT_FAIL)
             then ret (child' :: rest, BNODE_STAT_FAIL)
        else if Z.eqb i (childLen - 1)
             then ret (child' :: rest, BNODE_STAT_SUCC)
        else ret (child' :: rest, st)
  end.

(** The [for] of [SelectNode.Execute]. *)
Fixpoint select_loop (i childLen : Z) (subNodes : list BehaviorNode)
  (st : BNodeState) : M (list BehaviorNode * BNodeState) :=
  match subNodes with
  | [] => ret ([], st)
  | child :: rest =>
      if IsCompleted child then
        call r <- select_loop (i + 1) childLen rest st in
        ret (passed child r)
      else
        call child' <- exec child in
        if negb (IsCompleted child') then ret (child' :: rest, st)
        else if decide (GetState child' = BNODE_STAT_SUCC)
             then ret (child' :: rest, BNODE_STAT_SUCC)
        else if Z.eqb i (childLen - 1)
             then ret (child' :: rest, BNODE_STAT_FAIL)
        else ret (child' :: rest, st)
  end.

(** The [for] of [ParallelNode.Execute]; the result carries [n.state] and
    [bFinish]. *)
Fixpoint parallel_loop (subNodes : list BehaviorNode)
  (st : BNodeState) (bFinish : bool)
  : M (list BehaviorNode * (BNodeState * bool)) :=
  match subNodes with
  | [] => ret ([], (st, bFinish))
  | child :: rest =>
      if IsCompleted child then
        call r <- parallel_loop rest st bFinish in
        ret (passed child r)
      else
        call child' <- exec child in
        if negb (IsCompleted child') then
          call r <- parallel_loop rest st false in
          ret (passed child' r)
        else if decide (GetState child' = BNODE_STAT_FAIL)
             then ret (child' :: rest, (BNODE_STAT_FAIL, bFinish))
        else
          call r <- parallel_loop rest st bFinish in
          ret (passed child' r)
  end.

End Loops.

(** [len(n.subNodes)]. *)
Definition len (l : list BehaviorNode) : Z := Z.of_nat (length l).

(** [Execute], by the dynamic type of the node. *)
Fixpoint Execute (n : BehaviorNode) : M BehaviorNode :=
  match n with
  | BaseNode _ => ret n
  | ControlNode _ _ => ret n
  | SequenceNode b subNodes =>
      if base_IsCompleted b then ret n
      else
        call r <- sequence_loop Execute 0 (len subNodes) subNodes
                    BNODE_STAT_EXECUTING in
        ret (SequenceNode (SetState b (snd r)) (fst r))
  | SelectNode b subNodes =>
      if base_IsCompleted b then ret n
      else
        call r <- select_loop Execute 0 (len subNodes) subNodes
                    BNODE_STAT_EXECUTING in
        ret (SelectNode (SetState b (snd r)) (fst r))
  | ParallelNode b subNodes =>
      if base_IsCompleted b then ret n
      else
        call r <- parallel_loop Execute subNodes BNODE_STAT_EXECUTING true in
        let st := fst (snd r) in
        let bFinish := snd (snd r) in
        if bFinish && bool_decide (st = BNODE_STAT_EXECUTING)
        then ret (ParallelNode (SetState b BNODE_STAT_SUCC) (fst r))
        else ret (ParallelNode (SetState b st) (fst r))
  | AgentBNode b listener params =>
      match listener with
      | Some l =>
          call r <- call_OnBNodeAction l b params in
          ret (AgentBNode (SetState (snd r) (fst r)) listener params)
      | None => ret n
      end
  end.

Record BehaviorTree : Type := mkTree {
  treeId : Z;
  rootNode : BehaviorNode
}.

Definition NewBehaviorTree (treeId : Z) : BehaviorTree :=
  {| treeId := treeId; rootNode := NewSequenceNode BTREE_ROOT_NODE_ID |}.

Definition GetRootNode (t : BehaviorTree) : BehaviorNode := rootNode t.

Definition Tree_Execute (t : BehaviorTree) : M BehaviorTree :=
  call r <- Execute (rootNode t) in
  ret {| treeId := treeId t; rootNode := r |}.

Definition Tree_GetState (t : BehaviorTree) : BNodeState :=
  GetState (rootNode t).

Definition Tree_IsCompleted (t : BehaviorTree) : bool :=
  IsCompleted (rootNode t).

(** [k] calls of [Execute] in a row, nothing else touching the node in
    between. *)
Fixpoint Execute_n (k : nat) (n : BehaviorNode) : M BehaviorNode :=
  match k with
  | O => ret n
  | S k' => call n' <- Execute n in Execute_n k' n'
  end.

Fixpoint Tree_Execute_n (k : nat) (t : BehaviorTree) : M BehaviorTree :=
  match k with
  | O => ret t
  | S k' => call t' <- Tree_Execute t in Tree_Execute_n k' t'
  end.

(** The node is the leaf of [src/agent.go]. *)
Definition is_AgentBNode (n : BehaviorNode) : bool :=
  match n with
  | AgentBNode _ _ _ => true
  | _ => false
  end.

(** The words of the specification for one tick of a parallel node in
    which nothing fails: every child that is not completed is executed, in
    order; the completed ones are passed over. *)
Fixpoint execute_pending (l : list BehaviorNode) : M (list BehaviorNode) :=
  match l with
  | [] => ret []
  | child :: rest =>
      if IsCompleted child then
        call rest' <- execute_pending rest in ret (child :: rest')
      else
        call child' <- Execute child in
        call rest' <- execute_pending rest in ret (child' :: rest')
  end.

(** No child that was executed in the tick from [before] to [after] came
    out of it [BNODE_STAT_FAIL]. *)
Fixpoint no_failure (before after : list BehaviorNode) : bool :=
  match before, after with
  | child :: rest, child' :: rest' =>
      (IsCompleted child
       || negb (bool_decide (GetState child' = BNODE_STAT_FAIL)))
      && no_failure rest rest'
  | _, _ => true
  end.

End Nodes.

Arguments ActionResult : clear implicits.
Arguments AgentBNodeListener : clear implicits.
Arguments BehaviorNode : clear implicits.
Arguments BehaviorTree : clear implicits.

End Bt.

(** ** Concrete machines and trees

    The external world of the examples is a counter of callback runs and the
    parameters are integers. *)

Module Examples.

Import Fsm.

(** A state whose hooks add [k] to the counter. *)
Definition counting_state (name : string) (k : Z) : FSMState Z :=
  {| stat_GetName := name;
     OnEnter := fun _ c => c + k;
     OnUpdate := fun _ c => c;
     OnExit := fun _ c => c + k |}.

(** A gate that answers [b] and adds a hundred to the counter. *)
Definition const_gate (name : string) (b : bool) : FSMAction Z Z :=
  {| act_GetName := name;
     DoAction := fun _ _ c => (b, c + 100) |}.

Definition w0 : World Z Z := mkWorld 0 [].

(** [NewFSM(1)] with the states A and B and the gates veto and pass. *)
Definition fsm_AB : FSM Z Z :=
  let f := NewFSM 1 in
  let f := snd (AddState f "A" (Some (counting_state "A" 1))) in
  let f := snd (AddState f "B" (Some (counting_state "B" 10))) in
  let f := snd (AddAction f "veto" (Some (const_gate "veto" false))) in
  snd (AddAction f "pass" (Some (const_gate "pass" true))).

(** The machine above with one transition from A on go, started in A. *)
Definition fsm_started (to action : string) : FSM Z Z :=
  let f := snd (AddTransition fsm_AB "A" "go" to action) in
  snd (fst (Start f "A" w0)).

Definition w_started : World Z Z := snd (Start fsm_AB "A" w0).

End Examples.

Module BtExamples.

Import Bt.

(** A handler that answers [st], calls [UpdateStep] once and adds one to
    the counter. *)
Definition const_listener (st : BNodeState) : AgentBNodeListener Z Z :=
  {| OnBNodeAction := fun _ _ c => mkResult st 1 (c + 1) |}.

(** A new leaf with that handler; its action id is its node id. *)
Definition leaf (nodeId : Z) (st : BNodeState) : BehaviorNode Z Z :=
  NewAgentBNode nodeId nodeId 0 (Some (const_listener st)) [].

Definition add (n c : BehaviorNode Z Z) : BehaviorNode Z Z :=
  AddChild n (Some c).

Definition w0 : World Z Z := mkWorld 0 [].

(** What [t.GetRootNode().AddChild(c)] does to the tree [t]. *)
Definition tree_add (t : BehaviorTree Z Z) (c : BehaviorNode Z Z)
  : BehaviorTree Z Z :=
  {| treeId := treeId t; rootNode := add (rootNode t) c |}.

(** Three leaves of which the second fails, under a sequence and under a
    parallel node. *)
Definition three_leaves : list (BehaviorNode Z Z) :=
  [leaf 1 BNODE_STAT_SUCC; leaf 2 BNODE_STAT_FAIL; leaf 3 BNODE_STAT_SUCC].

Definition seq_base : BaseBehaviorNode := base_of (NewSequenceNode (W:=Z) (Param:=Z) 10).
Definition par_base : BaseBehaviorNode := base_of (NewParallelNode (W:=Z) (Param:=Z) 20).

Definition seq3 : BehaviorNode Z Z :=
  fold_left add three_leaves (NewSequenceNode 10).

Definition par3 : BehaviorNode Z Z :=
  fold_left add three_leaves (NewParallelNode 20).

(** A tree with one leaf that succeeds, before and after its first tick. *)
Definition tree1 : BehaviorTree Z Z :=
  tree_add (NewBehaviorTree 7) (leaf 1 BNODE_STAT_SUCC).

Definition tree1_done : BehaviorTree Z Z := fst (Tree_Execute tree1 w0).
Definition w_tree1_done : World Z Z := snd (Tree_Execute tree1 w0).

(** A handler that answers [BNODE_STAT_SUCC] the first time it runs and
    [BNODE_STAT_EXECUTING] afterwards. *)
Definition once_listener : AgentBNodeListener Z Z :=
  {| OnBNodeAction := fun _ _ c =>
       mkResult (if Z.eqb c 0 then BNODE_STAT_SUCC else BNODE_STAT_EXECUTING)
                1 (c + 1) |}.

(** A leaf with that handler, after it has been executed once. *)
Definition leaf_done : BehaviorNode Z Z :=
  fst (Execute (NewAgentBNode 5 5 0 (Some once_listener) []) w0).

Definition w_leaf_done : World Z Z :=
  snd (Execute (NewAgentBNode 5 5 0 (Some once_listener) []) w0).

End BtExamples.

(** ** Properties of the finite-state machine *)

Section FsmProperties.

Import Fsm.

Context {W Param : Type}.

Implicit Types (f : FSM W Param) (w : World W Param).
Implicit Types (tran : @FSMTransition) (evt name : string).
Implicit Types (param : list Param).

Lemma len0_true (s : string) : len0 s = true <-> s = "".
Proof.
  unfold len0. destruct s; simpl; split; intros H; congruence.
Qed.

Lemma len0_false (s : string) : len0 s = false <-> s <> "".
Proof.
  rewrite <- len0_true. destruct (len0 s); split; intros H; congruence.
Qed.

Lemma tran_matches_spec from evt tran :
  tran_matches from evt tran = true <-> From tran = from /\ Event tran = evt.
Proof.
  unfold tran_matches. rewrite andb_true_iff, !String.eqb_eq. tauto.
Qed.

(** [GetTransition] answers the first record of the table that matches. *)
Lemma find_first_Some from evt (l : list FSMTransition) tran :
  find_first from evt l = Some tran ->
  exists l1 l2, l = l1 ++ tran :: l2 /\
    tran_matches from evt tran = true /\
    Forall (fun t => tran_matches from evt t = false) l1.
Proof.
  induction l as [|t l IH]; simpl; [discriminate|].
  destruct (tran_matches from evt t) eqn:Ht.
  - intros [= ->]. exists [], l. auto.
  - intros H. destruct (IH H) as (l1 & l2 & -> & Hm & Hl1).
    exists (t :: l1), l2. auto.
Qed.

Lemma GetTransition_Some f from evt tran :
  GetTransition f from evt = Some tran ->
  from <> "" /\ evt <> "" /\ From tran = from /\ Event tran = evt /\
  In tran (transitions f).
Proof.
  unfold GetTransition.
  destruct (len0 from) eqn:Hf; [discriminate|].
  destruct (len0 evt) eqn:He; [discriminate|].
  intros H. apply find_first_Some in H as (l1 & l2 & Hl & Hm & _).
  apply tran_matches_spec in Hm as [? ?].
  rewrite len0_false in Hf, He. rewrite Hl.
  repeat split; auto. apply in_or_app. right. left. reflexivity.
Qed.

Lemma count_calls_app (p : Call Param -> bool) (t1 t2 : list (Call Param)) :
  count_calls p (t1 ++ t2) = (count_calls p t1 + count_calls p t2)%nat.
Proof. unfold count_calls. by rewrite List.filter_app, length_app. Qed.

Lemma count_calls_snoc (p : Call Param -> bool) (t : list (Call Param))
  (e : Call Param) :
  count_calls p (t ++ [e]) =
  (count_calls p t + if p e then 1 else 0)%nat.
Proof.
  rewrite count_calls_app. f_equal. unfold count_calls. simpl.
  by destruct (p e).
Qed.

(** The index that [PopState] reads is in range. *)
Lemma oldStates_top (hist : list string) (top : string) :
  (hist ++ [top]) !! (length (hist ++ [top]) - 1)%nat = Some top /\
  take (length (hist ++ [top]) - 1)%nat (hist ++ [top]) = hist.
Proof.
  rewrite length_app. simpl.
  replace (length hist + 1 - 1)%nat with (length hist) by lia.
  split.
  - rewrite lookup_app_r by lia. by rewrite Nat.sub_diag.
  - by rewrite take_app_length.
Qed.

Lemma nonempty_snoc {A} (l : list A) :
  l <> [] -> exists hist top, l = hist ++ [top].
Proof.
  intros H. destruct (exists_last H) as (hist & top & ->). eauto.
Qed.

(** Unfolds the calls of the hooks down to the worlds they produce. *)
Ltac run_calls :=
  unfold do_transition, bind, ret, call_OnExit, call_OnEnter, call_OnUpdate,
    call_DoAction; simpl.

(** The two lookups that come before the gate: with an end of the matched
    transition that is no registered state, [Trigger] fails and the gate is
    not consulted. *)
Lemma Trigger_unregistered_from f evt param w tran :
  GetTransition f (state f) evt = Some tran ->
  GetState f (state f) = None ->
  Trigger f evt param w = ((Some ErrFromStatNotExist, f), w).
Proof.
  intros Htran Hold.
  destruct (GetTransition_Some _ _ _ _ Htran) as (Hs & He & _).
  apply len0_false in Hs, He.
  unfold Trigger. by rewrite He, Hs, Htran, Hold.
Qed.

Lemma Trigger_unregistered_to f evt param w tran oldStat :
  GetTransition f (state f) evt = Some tran ->
  GetState f (state f) = Some oldStat ->
  GetState f (To tran) = None ->
  Trigger f evt param w = ((Some ErrToStatNotExist, f), w).
Proof.
  intros Htran Hold Hnew.
  destruct (GetTransition_Some _ _ _ _ Htran) as (Hs & He & _).
  apply len0_false in Hs, He.
  unfold Trigger. by rewrite He, Hs, Htran, Hold, Hnew.
Qed.

Lemma Trigger_no_transition f evt param w :
  evt <> "" -> state f <> "" ->
  GetTransition f (state f) evt = None ->
  Trigger f evt param w = ((Some ErrTranNotExist, f), w).
Proof.
  intros He Hs Htran. apply len0_false in Hs, He.
  unfold Trigger. by rewrite He, Hs, Htran.
Qed.

(** C1.  A vetoed [Trigger]: the event matches a transition out of the
    current state, both ends of the transition are registered states, the
    action that the transition names is registered and answers [false].
    Then [Trigger] returns no error, the machine is unchanged (so are its
    current state and its history stack), no [OnExit] and no [OnEnter] is
    called, and [DoAction] of the gate is called exactly once. *)
Theorem Trigger_vetoed f evt param w tran oldStat newStat act :
  GetTransition f (GetCurState f) evt = Some tran ->
  GetState f (GetCurState f) = Some oldStat ->
  GetState f (To tran) = Some newStat ->
  GetAction f (Action tran) = Some act ->
  fst (DoAction act evt param (ext w)) = false ->
  let r := Trigger f evt param w in
  err_of r = None /\
  GetCurState (fsm_of r) = GetCurState f /\
  oldStates (fsm_of r) = oldStates f /\
  fsm_of r = f /\
  trace (world_of r) = trace w ++ [CallDoAction (Action tran) evt param] /\
  ext (world_of r) = snd (DoAction act evt param (ext w)) /\
  count_calls is_enter_or_exit (trace (world_of r)) =
    count_calls is_enter_or_exit (trace w) /\
  count_calls is_DoAction (trace (world_of r)) =
    S (count_calls is_DoAction (trace w)).
Proof.
  intros Htran Hold Hnew Hact Hfalse r. subst r.
  unfold GetCurState in *.
  destruct (GetTransition_Some _ _ _ _ Htran) as (Hs & He & _).
  apply len0_false in Hs, He.
  unfold Trigger. rewrite He, Hs, Htran, Hold, Hnew, Hact.
  run_calls.
  destruct (DoAction act evt param (ext w)) as [succ e] eqn:Hdo.
  simpl in Hfalse. subst succ. simpl.
  unfold err_of, fsm_of, world_of. simpl.
  rewrite !count_calls_snoc. simpl.
  repeat split; auto; lia.
Qed.

(** C5.  A [Trigger] that goes through: the machine is in A, the event
    matches the transition to B, both are registered states, and the gate,
    if one is registered, answers [true].  Then [Trigger] returns no error,
    pushes A on the history stack and makes B current; after the gate it
    calls exactly A's [OnExit] with B and then B's [OnEnter] with A. *)
Theorem Trigger_moves f evt param w tran oldStat newStat :
  GetTransition f (GetCurState f) evt = Some tran ->
  GetState f (GetCurState f) = Some oldStat ->
  GetState f (To tran) = Some newStat ->
  not_vetoed f tran evt param w ->
  let A := GetCurState f in
  let B := To tran in
  let w1 := after_gate f tran evt param w in
  let r := Trigger f evt param w in
  err_of r = None /\
  GetCurState (fsm_of r) = B /\
  oldStates (fsm_of r) = oldStates f ++ [A] /\
  mapName2State (fsm_of r) = mapName2State f /\
  mapName2Action (fsm_of r) = mapName2Action f /\
  transitions (fsm_of r) = transitions f /\
  trace (world_of r) = trace w1 ++ [CallOnExit A B; CallOnEnter B A] /\
  ext (world_of r) = OnEnter newStat A (OnExit oldStat B (ext w1)) /\
  count_calls is_enter_or_exit (trace w1) =
    count_calls is_enter_or_exit (trace w).
Proof.
  intros Htran Hold Hnew Hgate A B w1 r. subst A B w1 r.
  unfold GetCurState in *.
  destruct (GetTransition_Some _ _ _ _ Htran) as (Hs & He & _).
  apply len0_false in Hs, He.
  unfold Trigger, not_vetoed, after_gate in *.
  rewrite He, Hs, Htran, Hold, Hnew.
  destruct (GetAction f (Action tran)) as [act|].
  - run_calls.
    destruct (DoAction act evt param (ext w)) as [succ e] eqn:Hdo.
    simpl in Hgate. subst succ. simpl.
    unfold err_of, fsm_of, world_of. simpl.
    rewrite count_calls_snoc. simpl.
    repeat split; auto; try lia. by rewrite <- app_assoc.
  - run_calls. unfold err_of, fsm_of, world_of. simpl.
    repeat split; auto. by rewrite <- app_assoc.
Qed.

(** The whole result of a [Trigger] that goes through. *)
Lemma Trigger_through_eq f evt param w tran oldStat newStat :
  GetTransition f (state f) evt = Some tran ->
  GetState f (state f) = Some oldStat ->
  GetState f (To tran) = Some newStat ->
  not_vetoed f tran evt param w ->
  Trigger f evt param w =
  ((None, set_state (set_oldStates f (oldStates f ++ [state f])) (To tran)),
   mkWorld
     (OnEnter newStat (state f)
        (OnExit oldStat (To tran) (ext (after_gate f tran evt param w))))
     (trace (after_gate f tran evt param w) ++
      [CallOnExit (state f) (To tran); CallOnEnter (To tran) (state f)])).
Proof.
  intros Htran Hold Hnew Hgate.
  destruct (GetTransition_Some _ _ _ _ Htran) as (Hs & He & _).
  apply len0_false in Hs, He.
  unfold Trigger, not_vetoed, after_gate in *.
  rewrite He, Hs, Htran, Hold, Hnew.
  destruct (GetAction f (Action tran)) as [act|]; run_calls.
  - destruct (DoAction act evt param (ext w)) as [succ e].
    simpl in Hgate. subst succ. simpl. by rewrite <- !app_assoc.
  - by rewrite <- !app_assoc.
Qed.

(** The whole result of a [PopState] that goes through. *)
Lemma PopState_through_eq f w hist T cStat tStat :
  oldStates f = hist ++ [T] ->
  GetState f (state f) = Some cStat ->
  GetState f T = Some tStat ->
  PopState f w =
  ((None, set_oldStates (set_state f T) hist),
   mkWorld (OnEnter tStat (state f) (OnExit cStat T (ext w)))
           (trace w ++ [CallOnExit (state f) T; CallOnEnter T (state f)])).
Proof.
  intros Hst Hc Ht. unfold PopState. rewrite Hc, Hst.
  destruct (oldStates_top hist T) as [-> ->].
  rewrite length_app. simpl.
  replace (length hist + 1 =? 0)%nat with false
    by (symmetry; apply Nat.eqb_neq; lia).
  rewrite Ht. run_calls. by rewrite <- !app_assoc.
Qed.

(** C6.  [PopState]: with an empty history stack it fails with
    [ErrNoOldStat] (NoHistory); with a stack whose top is T, it fails with
    [ErrFromStatNotExist] when the current state C is not registered and,
    C being registered, with [ErrToStatNotExist] when T is not; with both
    registered it calls C's [OnExit] with T and then T's [OnEnter] with C,
    makes T current and takes T off the stack, pushing nothing.  So, from
    an empty stack, one [Trigger] that goes through and one [PopState] give
    back the first state and an empty stack, and a second [PopState] fails
    with [ErrNoOldStat]. *)
Theorem PopState_spec f w :
  (oldStates f = [] -> PopState f w = ((Some ErrNoOldStat, f), w)) /\
  (oldStates f <> [] -> GetState f (GetCurState f) = None ->
   PopState f w = ((Some ErrFromStatNotExist, f), w)) /\
  (forall hist T cStat,
   oldStates f = hist ++ [T] ->
   GetState f (GetCurState f) = Some cStat ->
   GetState f T = None ->
   PopState f w = ((Some ErrToStatNotExist, f), w)) /\
  (forall hist T cStat tStat,
   oldStates f = hist ++ [T] ->
   GetState f (GetCurState f) = Some cStat ->
   GetState f T = Some tStat ->
   let C := GetCurState f in
   let r := PopState f w in
   err_of r = None /\
   GetCurState (fsm_of r) = T /\
   oldStates (fsm_of r) = hist /\
   mapName2State (fsm_of r) = mapName2State f /\
   trace (world_of r) = trace w ++ [CallOnExit C T; CallOnEnter T C] /\
   ext (world_of r) = OnEnter tStat C (OnExit cStat T (ext w))) /\
  (forall evt param tran oldStat newStat,
   oldStates f = [] ->
   GetTransition f (GetCurState f) evt = Some tran ->
   GetState f (GetCurState f) = Some oldStat ->
   GetState f (To tran) = Some newStat ->
   not_vetoed f tran evt param w ->
   let A := GetCurState f in
   let B := To tran in
   let r1 := Trigger f evt param w in
   let r2 := PopState (fsm_of r1) (world_of r1) in
   let r3 := PopState (fsm_of r2) (world_of r2) in
   err_of r2 = None /\
   GetCurState (fsm_of r2) = A /\
   oldStates (fsm_of r2) = [] /\
   trace (world_of r2) =
     trace (world_of r1) ++ [CallOnExit B A; CallOnEnter A B] /\
   err_of r3 = Some ErrNoOldStat /\
   fsm_of r3 = fsm_of r2).
Proof.
  unfold GetCurState. refine (conj _ (conj _ (conj _ (conj _ _)))).
  - intros H. unfold PopState. by rewrite H.
  - intros H Hc. unfold PopState. rewrite Hc.
    destruct (oldStates f); [done|]. done.
  - intros hist T cStat Hst Hc Ht. unfold PopState. rewrite Hc, Hst.
    destruct (oldStates_top hist T) as [-> _].
    rewrite length_app. simpl.
    replace (length hist + 1 =? 0)%nat with false
      by (symmetry; apply Nat.eqb_neq; lia).
    by rewrite Ht.
  - cbv zeta. intros hist T cStat tStat Hst Hc Ht.
    rewrite (PopState_through_eq _ _ _ _ _ _ Hst Hc Ht).
    unfold err_of, fsm_of, world_of. simpl. repeat split.
  - cbv zeta.
    intros evt param tran oldStat newStat Hemp Htran Hold Hnew Hgate.
    rewrite (Trigger_through_eq _ _ _ _ _ _ _ Htran Hold Hnew Hgate).
    unfold fsm_of, world_of. simpl. rewrite Hemp.
    rewrite (PopState_through_eq _ _ [] (state f) newStat oldStat);
      [|done..].
    unfold err_of. simpl. repeat split; auto.
Qed.

(** C8, as the code has it.  [AddTransition] checks [from], then [evt],
    then [to]: an empty [from] fails with [ErrFromStatNotExist], whose kind
    is FromStateNotFound; an empty [evt] with [ErrEvtEmpty] (EmptyEvent); an
    empty [to] with [ErrToStatNotExist] (ToStateNotFound); a failed call
    leaves the machine as it was.  With the three of them non-empty the
    call succeeds for every [action], the empty one too, and appends the
    record whatever the registered states are. *)
Theorem AddTransition_spec f from evt to action :
  (from = "" ->
   AddTransition f from evt to action = (Some ErrFromStatNotExist, f) /\
   kind_of ErrFromStatNotExist = FromStateNotFound) /\
  (from <> "" -> evt = "" ->
   AddTransition f from evt to action = (Some ErrEvtEmpty, f) /\
   kind_of ErrEvtEmpty = EmptyEvent) /\
  (from <> "" -> evt <> "" -> to = "" ->
   AddTransition f from evt to action = (Some ErrToStatNotExist, f) /\
   kind_of ErrToStatNotExist = ToStateNotFound) /\
  (from <> "" -> evt <> "" -> to <> "" ->
   AddTransition f from evt to action =
   (None, set_transitions f
            (transitions f ++ [NewFSMTransition from evt to action]))).
Proof.
  unfold AddTransition. rewrite <- !len0_false, <- !len0_true.
  destruct (len0 from), (len0 evt), (len0 to); repeat split; congruence.
Qed.

(** C9.  [Start] fails with [ErrNoFirstStat] exactly when the name is
    empty.  With a name that is registered it makes that state current and
    calls its [OnEnter] with the empty name, once; with a non-empty name
    that is not registered it returns no error and changes nothing: no hook
    is called and the current state stays what it was, the empty name for a
    new machine.  After [AddState] of a name, [Start] of that name makes it
    current and calls [OnEnter] once. *)
Theorem Start_spec f name w :
  (err_of (Start f name w) = Some ErrNoFirstStat <-> name = "") /\
  (name = "" -> Start f name w = ((Some ErrNoFirstStat, f), w)) /\
  (forall stat, name <> "" -> GetState f name = Some stat ->
   Start f name w =
   ((None, set_state f name),
    mkWorld (OnEnter stat "" (ext w)) (trace w ++ [CallOnEnter name ""]))) /\
  (name <> "" -> GetState f name = None ->
   Start f name w = ((None, f), w)) /\
  (forall i, name <> "" ->
   Start (NewFSM i) name w = ((None, NewFSM i), w) /\
   GetCurState (NewFSM (W:=W) (Param:=Param) i) = "") /\
  (forall stat, name <> "" ->
   let f1 := snd (AddState f name (Some stat)) in
   let r := Start f1 name w in
   err_of r = None /\
   GetCurState (fsm_of r) = name /\
   trace (world_of r) = trace w ++ [CallOnEnter name ""] /\
   ext (world_of r) = OnEnter stat "" (ext w)).
Proof.
  refine (conj _ (conj _ (conj _ (conj _ (conj _ _))))).
  - unfold Start, err_of. destruct (len0 name) eqn:Hn.
    + split; [intros _; by apply len0_true | reflexivity].
    + apply len0_false in Hn.
      destruct (GetState f name); simpl; split; intros; congruence.
  - intros ->. reflexivity.
  - intros stat Hn Hst. apply len0_false in Hn. unfold Start.
    by rewrite Hn, Hst.
  - intros Hn Hst. apply len0_false in Hn. unfold Start.
    by rewrite Hn, Hst.
  - intros i Hn. apply len0_false in Hn. unfold Start. rewrite Hn.
    unfold GetState, NewFSM. simpl. by rewrite lookup_empty.
  - cbv zeta. intros stat Hn. apply len0_false in Hn.
    unfold AddState, Start. rewrite Hn. simpl.
    unfold GetState. simpl. rewrite lookup_insert_eq.
    unfold err_of, fsm_of, world_of. simpl. repeat split.
Qed.

End FsmProperties.

(** ** Properties of the behavior nodes and of the tree *)

Section BtProperties.

Import Bt.

Context {W Param : Type}.

Implicit Types (n c : BehaviorNode W Param) (w : World W Param).
Implicit Types (b : BaseBehaviorNode) (st : BNodeState).
Implicit Types (pre post l : list (BehaviorNode W Param)).

Lemma base_IsCompleted_true b :
  base_IsCompleted b = true <->
  state b = BNODE_STAT_SUCC \/ state b = BNODE_STAT_FAIL.
Proof.
  unfold base_IsCompleted.
  destruct (state b); simpl; split; intros Hx; try done; auto;
    destruct Hx; discriminate.
Qed.

Lemma base_IsCompleted_SetState b st :
  base_IsCompleted (SetState b st) =
  bool_decide (st = BNODE_STAT_SUCC \/ st = BNODE_STAT_FAIL).
Proof.
  unfold base_IsCompleted. simpl. destruct st; reflexivity.
Qed.

Lemma SetState_twice b st st' :
  SetState (SetState b st) st' = SetState b st'.
Proof. reflexivity. Qed.

Lemma len_app pre post : len (pre ++ post) = len pre + len post.
Proof. unfold len. rewrite length_app. lia. Qed.

Lemma len_cons c l : len (c :: l) = 1 + len l.
Proof. unfold len. simpl length. lia. Qed.

Lemma len_nonneg l : 0 <= len l.
Proof. unfold len. lia. Qed.

Lemma len_zero l : len l = 0 <-> l = [].
Proof.
  unfold len. destruct l; simpl; split; intros ?; try done; lia.
Qed.

(** Unfolds the state transformers. *)
Ltac run_nodes := unfold bind, ret, passed; simpl.

Section LoopFacts.

Variable exec : BehaviorNode W Param -> M W Param (BehaviorNode W Param).

(** The loops walk past the children that are completed without touching
    them or the world. *)
Lemma sequence_loop_skip pre :
  forallb IsCompleted pre = true ->
  forall i L rest st w,
  sequence_loop exec i L (pre ++ rest) st w =
  (let r := sequence_loop exec (i + len pre) L rest st w in
   ((pre ++ fst (fst r), snd (fst r)), snd r)).
Proof.
  induction pre as [|a pre IH]; intros Hpre i L rest st w; cbv zeta.
  - simpl. replace (i + len []) with i by (unfold len; simpl; lia).
    by destruct (sequence_loop exec i L rest st w) as [[? ?] ?].
  - simpl in Hpre. apply andb_true_iff in Hpre as [Ha Hpre].
    simpl. rewrite Ha. run_nodes. rewrite (IH Hpre). cbv zeta.
    rewrite len_cons.
    replace (i + 1 + len pre) with (i + (1 + len pre)) by lia.
    reflexivity.
Qed.

Lemma select_loop_skip pre :
  forallb IsCompleted pre = true ->
  forall i L rest st w,
  select_loop exec i L (pre ++ rest) st w =
  (let r := select_loop exec (i + len pre) L rest st w in
   ((pre ++ fst (fst r), snd (fst r)), snd r)).
Proof.
  induction pre as [|a pre IH]; intros Hpre i L rest st w; cbv zeta.
  - simpl. replace (i + len []) with i by (unfold len; simpl; lia).
    by destruct (select_loop exec i L rest st w) as [[? ?] ?].
  - simpl in Hpre. apply andb_true_iff in Hpre as [Ha Hpre].
    simpl. rewrite Ha. run_nodes. rewrite (IH Hpre). cbv zeta.
    rewrite len_cons.
    replace (i + 1 + len pre) with (i + (1 + len pre)) by lia.
    reflexivity.
Qed.

End LoopFacts.

(** A composite that is not completed, all of whose children are, leaves
    them and the world alone: a completed leaf under a composite is not
    executed again. *)
Lemma SequenceNode_skips_completed b l w :
  base_IsCompleted b = false ->
  forallb IsCompleted l = true ->
  Execute (SequenceNode b l) w =
  (SequenceNode (SetState b BNODE_STAT_EXECUTING) l, w).
Proof.
  intros Hb Hl. simpl. rewrite Hb. run_nodes.
  rewrite <- (app_nil_r l) at 2.
  rewrite (sequence_loop_skip _ l Hl). simpl. by rewrite app_nil_r.
Qed.

(** The whole result of one tick of a sequence node. *)
Lemma SequenceNode_Execute_eq b pre c post w :
  base_IsCompleted b = false ->
  forallb IsCompleted pre = true ->
  IsCompleted c = false ->
  Execute (SequenceNode b (pre ++ c :: post)) w =
  (SequenceNode
     (SetState b
        (if negb (IsCompleted (fst (Execute c w))) then BNODE_STAT_EXECUTING
         else if decide (GetState (fst (Execute c w)) = BNODE_STAT_FAIL)
              then BNODE_STAT_FAIL
         else match post with
              | [] => BNODE_STAT_SUCC
              | _ :: _ => BNODE_STAT_EXECUTING
              end))
     (pre ++ fst (Execute c w) :: post),
   snd (Execute c w)).
Proof.
  intros Hb Hpre Hc. simpl. rewrite Hb. unfold bind.
  rewrite (sequence_loop_skip _ pre Hpre). cbv zeta.
  simpl sequence_loop. rewrite Hc. unfold bind.
  destruct (Execute c w) as [c' w'] eqn:Hex. simpl fst. simpl snd.
  rewrite len_app, len_cons.
  assert (Hlast : (Z.eqb (0 + len pre) (len pre + (1 + len post) - 1)) = true
                  <-> post = []).
  { rewrite Z.eqb_eq, <- len_zero. pose proof (len_nonneg post). lia. }
  destruct (IsCompleted c'); simpl; [|reflexivity].
  case_decide; simpl; [reflexivity|].
  destruct (Z.eqb (0 + len pre) (len pre + (1 + len post) - 1)) eqn:Hi; simpl.
  - destruct Hlast as [-> _]; reflexivity.
  - destruct post; [|reflexivity].
    destruct Hlast as [_ Hl]. discriminate Hl. reflexivity.
Qed.

(** C2.  One tick of a sequence node that is not completed, whose first
    child that is not completed is [c] (the children [pre] before it are
    completed).  The tick executes [c] and nothing else: the world after it
    is the world that [Execute] of [c] alone leaves, and the children before
    and after [c] are as they were.  The sequence stays
    [BNODE_STAT_EXECUTING] when [c] is still not completed; it becomes
    [BNODE_STAT_FAIL] when [c] failed; when [c] succeeded it becomes
    [BNODE_STAT_SUCC] if [c] is the last child and stays
    [BNODE_STAT_EXECUTING] otherwise. *)
Theorem SequenceNode_Execute_tick b pre c post w :
  base_IsCompleted b = false ->
  forallb IsCompleted pre = true ->
  IsCompleted c = false ->
  let c' := fst (Execute c w) in
  let n' := fst (Execute (SequenceNode b (pre ++ c :: post)) w) in
  snd (Execute (SequenceNode b (pre ++ c :: post)) w) = snd (Execute c w) /\
  n' = SequenceNode (SetState b (GetState n')) (pre ++ c' :: post) /\
  (IsCompleted c' = false -> GetState n' = BNODE_STAT_EXECUTING) /\
  (GetState c' = BNODE_STAT_FAIL -> GetState n' = BNODE_STAT_FAIL) /\
  (GetState c' = BNODE_STAT_SUCC -> post = [] ->
   GetState n' = BNODE_STAT_SUCC) /\
  (GetState c' = BNODE_STAT_SUCC -> post <> [] ->
   GetState n' = BNODE_STAT_EXECUTING).
Proof.
  intros Hb Hpre Hc. cbv zeta.
  rewrite (SequenceNode_Execute_eq b pre c post w Hb Hpre Hc).
  destruct (Execute c w) as [c' w'] eqn:Hex. simpl fst. simpl snd.
  unfold IsCompleted, GetState in *.
  destruct (base_IsCompleted (base_of c')) eqn:Hc'; simpl.
  - apply base_IsCompleted_true in Hc'.
    case_decide as Hf; simpl.
    + rewrite Hf. repeat split; try done.
    + destruct Hc' as [Hs|Hs]; [|done].
      rewrite Hs. destruct post; simpl; repeat split; try done.
  - repeat split; try done; intros Hf;
      assert (base_IsCompleted (base_of c') = true) as Hx
        by (apply base_IsCompleted_true; auto);
      congruence.
Qed.

(** The loop of the parallel node when no executed child fails: it is the
    walk over all the children that are not completed, and [bFinish] ends
    as the conjunction of its start value with "every child is completed". *)
Lemma parallel_loop_no_failure l :
  forall st bFinish w,
  no_failure l (fst (execute_pending l w)) = true ->
  parallel_loop Execute l st bFinish w =
  ((fst (execute_pending l w),
    (st, bFinish && forallb IsCompleted (fst (execute_pending l w)))),
   snd (execute_pending l w)).
Proof.
  induction l as [|child rest IH]; intros st bFinish w; simpl.
  - intros _. run_nodes. by rewrite andb_true_r.
  - destruct (IsCompleted child) eqn:Hchild.
    + run_nodes.
      destruct (execute_pending rest w) as [rest' w'] eqn:Hrest. simpl.
      intros Hnf.
      rewrite IH by (rewrite Hrest; exact Hnf). rewrite Hrest. simpl.
      by rewrite Hchild.
    + run_nodes.
      destruct (Execute child w) as [child' w1] eqn:Hex.
      destruct (execute_pending rest w1) as [rest' w'] eqn:Hrest. simpl.
      intros Hnf. apply andb_true_iff in Hnf as [Hok Hnf].
      apply negb_true_iff, bool_decide_eq_false in Hok.
      destruct (IsCompleted child') eqn:Hchild'; simpl.
      * case_decide; [contradiction|].
        rewrite IH by (rewrite Hrest; exact Hnf). by rewrite Hrest.
      * rewrite IH by (rewrite Hrest; exact Hnf). rewrite Hrest. simpl.
        by rewrite andb_false_r.
Qed.

(** The loop of the parallel node up to the first executed child that
    fails: the children before it have been walked, the children after it
    are left as they were. *)
Lemma parallel_loop_failure pre c post :
  forall st bFinish w,
  no_failure pre (fst (execute_pending pre w)) = true ->
  IsCompleted c = false ->
  GetState (fst (Execute c (snd (execute_pending pre w)))) = BNODE_STAT_FAIL ->
  parallel_loop Execute (pre ++ c :: post) st bFinish w =
  ((fst (execute_pending pre w)
      ++ fst (Execute c (snd (execute_pending pre w))) :: post,
    (BNODE_STAT_FAIL,
     bFinish && forallb IsCompleted (fst (execute_pending pre w)))),
   snd (Execute c (snd (execute_pending pre w)))).
Proof.
  induction pre as [|child rest IH]; intros st bFinish w; simpl.
  - intros _ Hc Hfail. rewrite Hc. run_nodes.
    destruct (Execute c w) as [c' w'] eqn:Hex. simpl in *.
    assert (IsCompleted c' = true) as ->.
    { apply base_IsCompleted_true. right. exact Hfail. }
    simpl. case_decide; [|contradiction]. by rewrite andb_true_r.
  - destruct (IsCompleted child) eqn:Hchild.
    + run_nodes. pose proof (IH st bFinish w) as IH'.
      destruct (execute_pending rest w) as [rest' w'] eqn:Hrest.
      simpl in *. intros Hnf Hc Hfail.
      rewrite IH' by assumption. simpl. by rewrite Hchild.
    + run_nodes.
      destruct (Execute child w) as [child' w1] eqn:Hex.
      pose proof (IH st bFinish w1) as IHt.
      pose proof (IH st false w1) as IHf.
      destruct (execute_pending rest w1) as [rest' w'] eqn:Hrest.
      simpl in *. intros Hnf Hc Hfail.
      apply andb_true_iff in Hnf as [Hok Hnf].
      apply negb_true_iff, bool_decide_eq_false in Hok.
      destruct (IsCompleted child') eqn:Hchild'; simpl.
      * case_decide; [contradiction|].
        by rewrite IHt by assumption.
      * rewrite IHf by assumption. simpl. by rewrite andb_false_r.
Qed.

(** C3.  One tick of a parallel node that is not completed.  The tick walks
    the children in order and executes those that are not completed.  When
    a child [c] comes out of its execution [BNODE_STAT_FAIL] (and none
    before it did in this tick), the node becomes [BNODE_STAT_FAIL], the
    walk stops and the children after [c] are left as they were, not
    executed.  When no executed child fails, every child that was not
    completed has been executed, and the node becomes [BNODE_STAT_SUCC] if
    all its children are now completed and stays [BNODE_STAT_EXECUTING]
    otherwise. *)
Theorem ParallelNode_Execute_tick b w :
  base_IsCompleted b = false ->
  (forall pre c post,
   let pre' := fst (execute_pending pre w) in
   let w1 := snd (execute_pending pre w) in
   let c' := fst (Execute c w1) in
   no_failure pre pre' = true ->
   IsCompleted c = false ->
   GetState c' = BNODE_STAT_FAIL ->
   Execute (ParallelNode b (pre ++ c :: post)) w =
   (ParallelNode (SetState b BNODE_STAT_FAIL) (pre' ++ c' :: post),
    snd (Execute c w1))) /\
  (forall l,
   let l' := fst (execute_pending l w) in
   no_failure l l' = true ->
   Execute (ParallelNode b l) w =
   (ParallelNode
      (SetState b (if forallb IsCompleted l' then BNODE_STAT_SUCC
                   else BNODE_STAT_EXECUTING)) l',
    snd (execute_pending l w))).
Proof.
  intros Hb. split; cbv zeta.
  - intros pre c post Hnf Hc Hfail. simpl. rewrite Hb. unfold bind.
    rewrite (parallel_loop_failure pre c post _ _ _ Hnf Hc Hfail).
    simpl. by rewrite andb_false_r.
  - intros l Hnf. simpl. rewrite Hb. unfold bind.
    rewrite (parallel_loop_no_failure l _ _ _ Hnf). simpl.
    by destruct (forallb IsCompleted (fst (execute_pending l w))).
Qed.

(** A node that is completed and is no leaf is left as it is, and so is
    the world. *)
Lemma Execute_completed n w :
  is_AgentBNode n = false -> IsCompleted n = true -> Execute n w = (n, w).
Proof.
  unfold IsCompleted.
  destruct n as [b|b l|b l|b l|b l|b li ps]; simpl; intros Hleaf Hdone;
    try discriminate; try reflexivity; by rewrite Hdone.
Qed.

(** [Execute] keeps the type of the node. *)
Lemma Execute_is_AgentBNode n w :
  is_AgentBNode (fst (Execute n w)) = is_AgentBNode n.
Proof.
  destruct n as [b|b l|b l|b l|b l|b li ps]; simpl; try reflexivity.
  - destruct (base_IsCompleted b); run_nodes; [reflexivity|].
    by destruct (sequence_loop _ _ _ _ _ _) as [[? ?] ?].
  - destruct (base_IsCompleted b); run_nodes; [reflexivity|].
    by destruct (select_loop _ _ _ _ _ _) as [[? ?] ?].
  - destruct (base_IsCompleted b); run_nodes; [reflexivity|].
    destruct (parallel_loop _ _ _ _ _) as [[? [? ?]] ?]. simpl.
    by destruct (_ && _).
  - by destruct li.
Qed.

(** The root of a new tree is a sequence node, and stays one when children
    are added to it. *)
Lemma NewBehaviorTree_root (treeId : Z) :
  is_AgentBNode (rootNode (NewBehaviorTree (W:=W) (Param:=Param) treeId))
  = false.
Proof. reflexivity. Qed.

Lemma AddChild_is_AgentBNode n (child : option (BehaviorNode W Param)) :
  is_AgentBNode (AddChild n child) = is_AgentBNode n.
Proof. destruct child, n; reflexivity. Qed.

(** C7.  A tree whose root is completed is a fixed point of [Execute]: any
    number of ticks returns the same tree, every node of it with the state
    and the step counter it had, and calls no handler.  The root of a tree
    is the sequence node that [NewBehaviorTree] makes; the statement holds
    for every root that is not a leaf. *)
Theorem completed_tree_is_fixed (t : BehaviorTree W Param) (k : nat) w :
  is_AgentBNode (rootNode t) = false ->
  Tree_IsCompleted t = true ->
  Tree_Execute_n k t w = (t, w).
Proof.
  intros Hleaf Hdone. induction k as [|k IH]; simpl; [reflexivity|].
  unfold Tree_Execute, Tree_IsCompleted in *. run_nodes.
  rewrite (Execute_completed _ w Hleaf Hdone).
  destruct t as [i r]. simpl in *. exact IH.
Qed.

(** [AgentBNode.Execute] (agent.go 108-113) in one equation.  Its only test
    is [listener != nil]: with a listener it calls the handler, once, and
    stores the state that the handler returns; without a listener it does
    nothing.  The test [IsCompleted] with which [SequenceNode.Execute],
    [SelectNode.Execute] and [ParallelNode.Execute] begin is missing here,
    so the equation holds for a completed node as well. *)
Theorem AgentBNode_Execute_spec b (l : AgentBNodeListener W Param)
  (params : list Param) w :
  let r := OnBNodeAction l b params (ext w) in
  let out := Execute (AgentBNode b (Some l) params) w in
  out = (AgentBNode (SetState (Nat.iter (res_steps r) UpdateStep b)
                              (res_state r)) (Some l) params,
         mkWorld (res_ext r)
                 (trace w ++ [CallOnBNodeAction (nodeId b) (actionId b)])) /\
  GetState (fst out) = res_state r /\
  count_calls is_OnBNodeAction (trace (snd out)) =
    S (count_calls is_OnBNodeAction (trace w)) /\
  Execute (AgentBNode b None params) w = (AgentBNode b None params, w).
Proof.
  cbv zeta. simpl. unfold bind, call_OnBNodeAction, ret. simpl.
  repeat split.
  unfold count_calls. rewrite List.filter_app, length_app. simpl. lia.
Qed.

Lemma Execute_n_S k n w :
  Execute_n (S k) n w = Execute_n k (fst (Execute n w)) (snd (Execute n w)).
Proof. simpl. unfold bind. by destruct (Execute n w). Qed.

(** One tick of a composite without children. *)
Lemma Execute_empty_sequence b w :
  base_IsCompleted b = false ->
  Execute (SequenceNode b []) w =
  (SequenceNode (SetState b BNODE_STAT_EXECUTING) [], w).
Proof. intros Hb. simpl. by rewrite Hb. Qed.

Lemma Execute_empty_select b w :
  base_IsCompleted b = false ->
  Execute (SelectNode b []) w =
  (SelectNode (SetState b BNODE_STAT_EXECUTING) [], w).
Proof. intros Hb. simpl. by rewrite Hb. Qed.

Lemma Execute_empty_parallel b w :
  base_IsCompleted b = false ->
  Execute (ParallelNode b []) w =
  (ParallelNode (SetState b BNODE_STAT_SUCC) [], w).
Proof. intros Hb. simpl. by rewrite Hb. Qed.

(** [k] ticks of a sequence or of a selector without children. *)
Lemma Execute_n_empty_sequence k b w :
  base_IsCompleted b = false ->
  Execute_n (S k) (SequenceNode b []) w =
  (SequenceNode (SetState b BNODE_STAT_EXECUTING) [], w).
Proof.
  revert b. induction k as [|k IH]; intros b Hb;
    rewrite Execute_n_S, Execute_empty_sequence by exact Hb;
    cbn [fst snd].
  - reflexivity.
  - by rewrite IH.
Qed.

Lemma Execute_n_empty_select k b w :
  base_IsCompleted b = false ->
  Execute_n (S k) (SelectNode b []) w =
  (SelectNode (SetState b BNODE_STAT_EXECUTING) [], w).
Proof.
  revert b. induction k as [|k IH]; intros b Hb;
    rewrite Execute_n_S, Execute_empty_select by exact Hb;
    cbn [fst snd].
  - reflexivity.
  - by rewrite IH.
Qed.

Lemma Tree_Execute_n_root k (t : BehaviorTree W Param) w :
  Tree_Execute_n k t w =
  ({| treeId := treeId t; rootNode := fst (Execute_n k (rootNode t) w) |},
   snd (Execute_n k (rootNode t) w)).
Proof.
  revert t w. induction k as [|k IH]; intros [i r] w; simpl.
  - reflexivity.
  - unfold Tree_Execute. run_nodes.
    destruct (Execute r w) as [r' w']. by rewrite IH.
Qed.

(** C10.  A sequence or a selector without children that is not completed
    is [BNODE_STAT_EXECUTING] after every call of [Execute] and never gets
    completed; a parallel node without children that is not completed is
    [BNODE_STAT_SUCC] after its first call.  So the tree that
    [NewBehaviorTree] makes is not completed after any number of ticks, as
    long as its root has no children. *)
Theorem empty_composites_tick b w (k : nat) :
  base_IsCompleted b = false ->
  (Execute (SequenceNode b []) w =
     (SequenceNode (SetState b BNODE_STAT_EXECUTING) [], w) /\
   Execute_n (S k) (SequenceNode b []) w =
     (SequenceNode (SetState b BNODE_STAT_EXECUTING) [], w) /\
   IsCompleted (fst (Execute_n k (SequenceNode b []) w)) = false) /\
  (Execute (SelectNode b []) w =
     (SelectNode (SetState b BNODE_STAT_EXECUTING) [], w) /\
   Execute_n (S k) (SelectNode b []) w =
     (SelectNode (SetState b BNODE_STAT_EXECUTING) [], w) /\
   IsCompleted (fst (Execute_n k (SelectNode b []) w)) = false) /\
  Execute (ParallelNode b []) w =
    (ParallelNode (SetState b BNODE_STAT_SUCC) [], w) /\
  (forall treeId,
   Tree_IsCompleted (fst (Tree_Execute_n k (NewBehaviorTree treeId) w))
   = false).
Proof.
  intros Hb. refine (conj (conj _ (conj _ _)) (conj (conj _ (conj _ _))
                       (conj _ _))).
  - by apply Execute_empty_sequence.
  - by apply Execute_n_empty_sequence.
  - destruct k; [exact Hb|]. by rewrite Execute_n_empty_sequence.
  - by apply Execute_empty_select.
  - by apply Execute_n_empty_select.
  - destruct k; [exact Hb|]. by rewrite Execute_n_empty_select.
  - by apply Execute_empty_parallel.
  - intros treeId. rewrite Tree_Execute_n_root. unfold Tree_IsCompleted.
    simpl rootNode. unfold NewSequenceNode. simpl.
    destruct k; [reflexivity|]. by rewrite Execute_n_empty_sequence.
Qed.

End BtProperties.

(** ** The machine of the examples, run *)

Section FsmRuns.

Import Fsm Examples.

(** The veto on the machine of the examples: A is current, the transition
    on go leads to B behind the gate veto. *)
Lemma Trigger_vetoed_witness :
  GetCurState (fsm_started "B" "veto") = "A" /\
  err_of (Trigger (fsm_started "B" "veto") "go" [7] w_started) = None /\
  GetCurState (fsm_of (Trigger (fsm_started "B" "veto") "go" [7] w_started))
    = "A" /\
  oldStates (fsm_of (Trigger (fsm_started "B" "veto") "go" [7] w_started))
    = [] /\
  trace (world_of (Trigger (fsm_started "B" "veto") "go" [7] w_started))
    = [CallOnEnter "A" ""; CallDoAction "veto" "go" [7]].
Proof.
  pose proof (Trigger_vetoed (fsm_started "B" "veto") "go" [7] w_started
                (NewFSMTransition "A" "go" "B" "veto")
                (counting_state "A" 1) (counting_state "B" 10)
                (const_gate "veto" false)) as H.
  cbv zeta in H.
  destruct H as (He & Hs & Ho & _ & Ht & _); try reflexivity.
  exact (conj eq_refl (conj He (conj Hs (conj Ho Ht)))).
Defined.

(** The same machine with the gate pass: the event goes through. *)
Lemma Trigger_moves_witness :
  GetCurState (fsm_started "B" "pass") = "A" /\
  err_of (Trigger (fsm_started "B" "pass") "go" [7] w_started) = None /\
  GetCurState (fsm_of (Trigger (fsm_started "B" "pass") "go" [7] w_started))
    = "B" /\
  oldStates (fsm_of (Trigger (fsm_started "B" "pass") "go" [7] w_started))
    = ["A"] /\
  trace (world_of (Trigger (fsm_started "B" "pass") "go" [7] w_started))
    = [CallOnEnter "A" ""; CallDoAction "pass" "go" [7];
       CallOnExit "A" "B"; CallOnEnter "B" "A"].
Proof.
  pose proof (Trigger_moves (fsm_started "B" "pass") "go" [7] w_started
                (NewFSMTransition "A" "go" "B" "pass")
                (counting_state "A" 1) (counting_state "B" 10)) as H.
  cbv zeta in H.
  destruct H as (He & Hs & Ho & _ & _ & _ & Ht & _); try reflexivity.
  exact (conj eq_refl (conj He (conj Hs (conj Ho Ht)))).
Defined.

(** The machine after that event: B is current and A is on the stack. *)
Definition fsm_in_B : FSM Z Z :=
  fsm_of (Trigger (fsm_started "B" "pass") "go" [7] w_started).

Definition w_in_B : World Z Z :=
  world_of (Trigger (fsm_started "B" "pass") "go" [7] w_started).

(** [PopState] on the machine of the examples: on the empty stack, back
    from B to A, with B or A removed in between, and after a [Trigger]. *)
Lemma PopState_spec_witness :
  err_of (PopState (fsm_started "B" "pass") w_started) = Some ErrNoOldStat /\
  err_of (PopState (RemoveState fsm_in_B "B") w_in_B)
    = Some ErrFromStatNotExist /\
  err_of (PopState (RemoveState fsm_in_B "A") w_in_B)
    = Some ErrToStatNotExist /\
  (GetCurState (fsm_of (PopState fsm_in_B w_in_B)) = "A" /\
   oldStates (fsm_of (PopState fsm_in_B w_in_B)) = [] /\
   trace (world_of (PopState fsm_in_B w_in_B))
     = trace w_in_B ++ [CallOnExit "B" "A"; CallOnEnter "A" "B"]) /\
  err_of (PopState (fsm_of (PopState fsm_in_B w_in_B))
                   (world_of (PopState fsm_in_B w_in_B)))
    = Some ErrNoOldStat.
Proof.
  refine (conj _ (conj _ (conj _ (conj _ _)))).
  - destruct (PopState_spec (fsm_started "B" "pass") w_started) as (H & _).
    by rewrite H.
  - destruct (PopState_spec (RemoveState fsm_in_B "B") w_in_B)
      as (_ & H & _).
    by rewrite H.
  - destruct (PopState_spec (RemoveState fsm_in_B "A") w_in_B)
      as (_ & _ & H & _).
    by rewrite (H [] "A" (counting_state "B" 10)).
  - destruct (PopState_spec fsm_in_B w_in_B) as (_ & _ & _ & H & _).
    destruct (H [] "A" (counting_state "B" 10) (counting_state "A" 1))
      as (_ & Hs & Ho & _ & Ht & _); try reflexivity.
    exact (conj Hs (conj Ho Ht)).
  - destruct (PopState_spec (fsm_started "B" "pass") w_started)
      as (_ & _ & _ & _ & H).
    assert (Hg : not_vetoed (fsm_started "B" "pass")
                   (NewFSMTransition "A" "go" "B" "pass") "go" [7] w_started)
      by reflexivity.
    destruct (H "go" [7] (NewFSMTransition "A" "go" "B" "pass")
                (counting_state "A" 1) (counting_state "B" 10)
                eq_refl eq_refl eq_refl eq_refl Hg)
      as (_ & _ & _ & _ & He & _).
    exact He.
Defined.

(** C8 with the error kinds EmptyFrom and EmptyTo does not hold: for an
    empty [from] the error is the sentinel of FromStateNotFound, not a kind
    EmptyFrom; for an empty [to] that of ToStateNotFound, not EmptyTo; and
    an empty [evt] next to an empty [from] is not reported as EmptyEvent. *)
Lemma AddTransition_kinds_counterexample :
  (fst (AddTransition fsm_AB "" "go" "B" "") = Some ErrFromStatNotExist /\
   kind_of <$> fst (AddTransition fsm_AB "" "go" "B" "") <> Some EmptyFrom) /\
  (fst (AddTransition fsm_AB "A" "go" "" "") = Some ErrToStatNotExist /\
   kind_of <$> fst (AddTransition fsm_AB "A" "go" "" "") <> Some EmptyTo) /\
  kind_of <$> fst (AddTransition fsm_AB "" "" "B" "") <> Some EmptyEvent.
Proof.
  repeat split; simpl; discriminate.
Qed.

(** [AddTransition] on the machine of the examples: the three failures, and
    a record between two names that are no states, with no action. *)
Lemma AddTransition_spec_witness :
  AddTransition fsm_AB "" "go" "B" "" = (Some ErrFromStatNotExist, fsm_AB) /\
  AddTransition fsm_AB "A" "" "B" "" = (Some ErrEvtEmpty, fsm_AB) /\
  AddTransition fsm_AB "A" "go" "" "" = (Some ErrToStatNotExist, fsm_AB) /\
  (GetState fsm_AB "X" = None /\ GetState fsm_AB "Y" = None /\
   AddTransition fsm_AB "X" "go" "Y" "" =
   (None, set_transitions fsm_AB [NewFSMTransition "X" "go" "Y" ""])).
Proof.
  refine (conj _ (conj _ (conj _ (conj _ (conj _ _))))).
  - destruct (AddTransition_spec fsm_AB "" "go" "B" "") as (H & _).
    by destruct H.
  - destruct (AddTransition_spec fsm_AB "A" "" "B" "") as (_ & H & _).
    by destruct H.
  - destruct (AddTransition_spec fsm_AB "A" "go" "" "") as (_ & _ & H & _).
    by destruct H.
  - reflexivity.
  - reflexivity.
  - destruct (AddTransition_spec fsm_AB "X" "go" "Y" "") as (_ & _ & _ & H).
    by rewrite H.
Defined.

(** [Start] on the machine of the examples, with the empty name, with A,
    and with a name that is no state; and on a state just added. *)
Lemma Start_spec_witness :
  Start fsm_AB "" w0 = ((Some ErrNoFirstStat, fsm_AB), w0) /\
  Start fsm_AB "A" w0 =
    ((None, set_state fsm_AB "A"), mkWorld 1 [CallOnEnter "A" ""]) /\
  (GetState fsm_AB "Z" = None /\ Start fsm_AB "Z" w0 = ((None, fsm_AB), w0)) /\
  trace (world_of (Start (snd (AddState fsm_AB "C" (Some (counting_state "C" 5))))
                         "C" w0))
    = [CallOnEnter "C" ""].
Proof.
  refine (conj _ (conj _ (conj _ _))).
  - destruct (Start_spec fsm_AB "" w0) as (_ & H & _). by apply H.
  - destruct (Start_spec fsm_AB "A" w0) as (_ & _ & H & _).
    by rewrite (H (counting_state "A" 1)).
  - destruct (Start_spec fsm_AB "Z" w0) as (_ & _ & _ & H & _).
    split; [reflexivity | by apply H].
  - destruct (Start_spec fsm_AB "C" w0) as (_ & _ & _ & _ & _ & H).
    destruct (H (counting_state "C" 5)) as (_ & _ & Ht & _); [done|].
    exact Ht.
Defined.

End FsmRuns.

(** ** The trees of the examples, run *)

Section BtRuns.

Import Bt BtExamples.

(** The first tick of the sequence over the three leaves executes the first
    leaf only and leaves the sequence executing; the second tick executes
    the second leaf only, which fails, and the sequence fails. *)
Lemma SequenceNode_Execute_tick_witness :
  (GetState (fst (Execute seq3 w0)) = BNODE_STAT_EXECUTING /\
   trace (snd (Execute seq3 w0)) = [CallOnBNodeAction 1 1]) /\
  (GetState (fst (Execute_n 2 seq3 w0)) = BNODE_STAT_FAIL /\
   trace (snd (Execute_n 2 seq3 w0))
     = [CallOnBNodeAction 1 1; CallOnBNodeAction 2 2] /\
   children (fst (Execute_n 2 seq3 w0)) !! 2%nat
     = Some (leaf 3 BNODE_STAT_SUCC)).
Proof.
  split.
  - pose proof (SequenceNode_Execute_tick seq_base []
                  (leaf 1 BNODE_STAT_SUCC)
                  [leaf 2 BNODE_STAT_FAIL; leaf 3 BNODE_STAT_SUCC] w0
                  eq_refl eq_refl eq_refl) as H.
    cbv zeta in H. destruct H as (Hw & _ & _ & _ & _ & Hexec).
    split; [apply Hexec; [reflexivity | discriminate] |].
    exact (f_equal trace Hw).
  - pose proof (SequenceNode_Execute_tick
                  (SetState seq_base BNODE_STAT_EXECUTING)
                  [fst (Execute (leaf 1 BNODE_STAT_SUCC) w0)]
                  (leaf 2 BNODE_STAT_FAIL) [leaf 3 BNODE_STAT_SUCC]
                  (snd (Execute seq3 w0))
                  eq_refl eq_refl eq_refl) as H.
    cbv zeta in H. destruct H as (Hw & Hn & _ & Hfail & _).
    split; [apply Hfail; reflexivity|].
    split; [exact (f_equal trace Hw) |].
    exact (f_equal (fun n => children n !! 2%nat) Hn).
Defined.

(** The first tick of the parallel node over the three leaves executes the
    first and the second leaf; the second fails, the node fails and the
    third leaf is not executed.  Over the first leaf alone the node
    succeeds. *)
Lemma ParallelNode_Execute_tick_witness :
  (GetState (fst (Execute par3 w0)) = BNODE_STAT_FAIL /\
   trace (snd (Execute par3 w0))
     = [CallOnBNodeAction 1 1; CallOnBNodeAction 2 2] /\
   children (fst (Execute par3 w0)) !! 2%nat
     = Some (leaf 3 BNODE_STAT_SUCC)) /\
  GetState (fst (Execute (ParallelNode par_base [leaf 1 BNODE_STAT_SUCC]) w0))
    = BNODE_STAT_SUCC.
Proof.
  destruct (ParallelNode_Execute_tick par_base w0 eq_refl) as [Hfail Hok].
  split.
  - pose proof (Hfail [leaf 1 BNODE_STAT_SUCC] (leaf 2 BNODE_STAT_FAIL)
                  [leaf 3 BNODE_STAT_SUCC] eq_refl eq_refl eq_refl) as H.
    cbv zeta in H.
    change (Execute par3 w0) with
      (Execute (ParallelNode par_base
                  ([leaf 1 BNODE_STAT_SUCC] ++
                   leaf 2 BNODE_STAT_FAIL :: [leaf 3 BNODE_STAT_SUCC])) w0).
    rewrite H. repeat split.
  - pose proof (Hok [leaf 1 BNODE_STAT_SUCC] eq_refl) as H.
    cbv zeta in H. by rewrite H.
Defined.

(** The tree with one leaf is completed after its first tick; three more
    ticks change nothing. *)
Lemma completed_tree_is_fixed_witness :
  Tree_IsCompleted tree1_done = true /\
  Tree_Execute_n 3 tree1_done w_tree1_done = (tree1_done, w_tree1_done).
Proof.
  split; [reflexivity|].
  exact (completed_tree_is_fixed tree1_done 3 w_tree1_done eq_refl eq_refl).
Defined.

(** C4 fails on the code.  The leaf [NewAgentBNode 5 5 0] with a handler
    that answers [BNODE_STAT_SUCC] first and [BNODE_STAT_EXECUTING]
    afterwards is completed after its first [Execute]; a second [Execute]
    should do nothing, but it calls the handler again (the trace and the
    step counter grow) and the node goes back from [BNODE_STAT_SUCC] to
    [BNODE_STAT_EXECUTING]: [AgentBNode.Execute] lacks the [IsCompleted]
    test that the three composite nodes have. *)
Lemma AgentBNode_Execute_reruns_completed :
  IsCompleted leaf_done = true /\
  GetState leaf_done = BNODE_STAT_SUCC /\
  GetState (fst (Execute leaf_done w_leaf_done)) = BNODE_STAT_EXECUTING /\
  trace w_leaf_done = [CallOnBNodeAction 5 5] /\
  trace (snd (Execute leaf_done w_leaf_done))
    = [CallOnBNodeAction 5 5; CallOnBNodeAction 5 5] /\
  GetStep leaf_done = 1 /\
  GetStep (fst (Execute leaf_done w_leaf_done)) = 2.
Proof. repeat split. Qed.

(** Composites without children, on the bases that the constructors make,
    and the new tree after five ticks. *)
Lemma empty_composites_tick_witness :
  GetState (fst (Execute_n 4 (NewSequenceNode 10) w0))
    = BNODE_STAT_EXECUTING /\
  GetState (fst (Execute_n 4 (NewSelectNode 10) w0))
    = BNODE_STAT_EXECUTING /\
  GetState (fst (Execute (NewParallelNode 20) w0)) = BNODE_STAT_SUCC /\
  Tree_IsCompleted (fst (Tree_Execute_n 3 (NewBehaviorTree 7) w0)) = false.
Proof.
  destruct (empty_composites_tick (W:=Z) (Param:=Z) seq_base w0 3 eq_refl)
    as ((_ & Hseq & _) & _ & _ & Htree).
  destruct (empty_composites_tick (W:=Z) (Param:=Z)
              (base_of (NewSelectNode (W:=Z) (Param:=Z) 10)) w0 3 eq_refl)
    as (_ & (_ & Hsel & _) & _).
  destruct (empty_composites_tick (W:=Z) (Param:=Z) par_base w0 3 eq_refl)
    as (_ & _ & Hpar & _).
  refine (conj _ (conj _ (conj _ _))).
  - change (NewSequenceNode 10) with (SequenceNode (W:=Z) (Param:=Z) seq_base []).
    by rewrite Hseq.
  - change (NewSelectNode 10) with
      (SelectNode (W:=Z) (Param:=Z)
         (base_of (NewSelectNode (W:=Z) (Param:=Z) 10)) []).
    by rewrite Hsel.
  - change (NewParallelNode 20) with
      (ParallelNode (W:=Z) (Param:=Z) par_base []).
    by rewrite Hpar.
  - exact (Htree 7).
Defined.

End BtRuns.

(** ** More on the finite-state machine: failures, registries, history *)

Section FsmExtra.

Import Fsm.

Context {W Param : Type}.

Implicit Types (f : FSM W Param) (w : World W Param).
Implicit Types (tran : @FSMTransition) (evt name from to action : string).
Implicit Types (param : list Param).

(** The current state and every state on the history stack are registered,
    and the empty name is not; a machine without current state has an empty
    stack. *)
Definition registered (f : FSM W Param) (s : string) : Prop :=
  is_Some (GetState f s).

Definition fsm_inv (f : FSM W Param) : Prop :=
  GetState f "" = None /\
  Forall (registered f) (oldStates f) /\
  (registered f (state f) \/ (state f = "" /\ oldStates f = [])).

(** X1.  A call that fails has done nothing: the machine and the world are the
    ones it was given, so no hook and no gate has run. *)
Theorem failed_call_changes_nothing f w :
  (forall evt param,
   err_of (Trigger f evt param w) <> None ->
   fsm_of (Trigger f evt param w) = f /\
   world_of (Trigger f evt param w) = w) /\
  (err_of (PopState f w) <> None ->
   fsm_of (PopState f w) = f /\ world_of (PopState f w) = w) /\
  (forall name,
   err_of (Start f name w) <> None ->
   fsm_of (Start f name w) = f /\ world_of (Start f name w) = w).
Proof.
  unfold err_of, fsm_of, world_of.
  refine (conj _ (conj _ _)).
  - intros evt param. unfold Trigger.
    destruct (len0 evt); [done|]. destruct (len0 (state f)); [done|].
    destruct (GetTransition f (state f) evt) as [tran|]; [|done].
    destruct (GetState f (state f)) as [oldStat|]; [|done].
    destruct (GetState f (To tran)) as [newStat|]; [|done].
    destruct (GetAction f (Action tran)) as [act|];
      unfold do_transition, bind, ret, call_OnExit, call_OnEnter,
        call_DoAction; simpl; [|done].
    destruct (DoAction act evt param (ext w)) as [[] e]; simpl; done.
  - unfold PopState.
    destruct (Nat.eqb (length (oldStates f)) 0); [done|].
    destruct (GetState f (state f)) as [oldStat|]; [|done].
    destruct (oldStates f !! _) as [top|]; [|done].
    destruct (GetState f top) as [newStat|]; [|done].
    unfold bind, ret, call_OnExit, call_OnEnter. simpl. done.
  - intros name. unfold Start.
    destruct (len0 name); [done|].
    destruct (GetState f name) as [stat|]; [|done].
    unfold bind, ret, call_OnEnter. simpl. done.
Qed.

(** The two machines have the same id, states, actions and transitions. *)
Definition same_registries (f f' : FSM W Param) : Prop :=
  id f' = id f /\
  mapName2State f' = mapName2State f /\
  mapName2Action f' = mapName2Action f /\
  transitions f' = transitions f.

(** X2.  Running the machine never touches what is registered in it: [Trigger],
    [PopState], [Start], [Stop] and [Update] keep the id, the states, the
    actions and the transitions. *)
Theorem running_keeps_registries f w :
  (forall evt param, same_registries f (fsm_of (Trigger f evt param w))) /\
  same_registries f (fsm_of (PopState f w)) /\
  (forall name, same_registries f (fsm_of (Start f name w))) /\
  same_registries f (fst (Stop f w)) /\
  (forall dt, same_registries f (fst (Update f dt w))).
Proof.
  unfold same_registries, fsm_of.
  refine (conj _ (conj _ (conj _ (conj _ _)))).
  - intros evt param. unfold Trigger.
    destruct (len0 evt); [done|]. destruct (len0 (state f)); [done|].
    destruct (GetTransition f (state f) evt) as [tran|]; [|done].
    destruct (GetState f (state f)) as [oldStat|]; [|done].
    destruct (GetState f (To tran)) as [newStat|]; [|done].
    destruct (GetAction f (Action tran)) as [act|];
      unfold do_transition, bind, ret, call_OnExit, call_OnEnter,
        call_DoAction; simpl; [|done].
    destruct (DoAction act evt param (ext w)) as [[] e]; simpl; done.
  - unfold PopState.
    destruct (Nat.eqb (length (oldStates f)) 0); [done|].
    destruct (GetState f (state f)) as [oldStat|]; [|done].
    destruct (oldStates f !! _) as [top|]; [|done].
    destruct (GetState f top) as [newStat|]; [|done].
    unfold bind, ret, call_OnExit, call_OnEnter. simpl. done.
  - intros name. unfold Start.
    destruct (len0 name); [done|].
    destruct (GetState f name) as [stat|]; [|done].
    unfold bind, ret, call_OnEnter. simpl. done.
  - unfold Stop. destruct (len0 (state f)); [done|].
    destruct (GetState f (state f)); done.
  - intros dt. unfold Update. destruct (GetState f (state f)); done.
Qed.

(** X3.  The registry of states: [AddState] under a non-empty name registers or
    overwrites that name and no other, [RemoveState] unregisters that name
    and no other and is the identity on a name that is not registered, and
    [AddState] refuses the empty name and the nil state without touching
    the machine. *)
Theorem state_registry f name (stat : FSMState W) name' :
  (name <> "" ->
   fst (AddState f name (Some stat)) = None /\
   GetState (snd (AddState f name (Some stat))) name' =
     (if decide (name' = name) then Some stat else GetState f name')) /\
  GetState (RemoveState f name) name' =
    (if decide (name' = name) then None else GetState f name') /\
  (GetState f name = None -> RemoveState f name = f) /\
  RemoveState (RemoveState f name) name = RemoveState f name /\
  AddState f "" (Some stat) = (Some ErrNameLenZero, f) /\
  (name <> "" -> AddState f name None = (Some ErrStatNil, f)).
Proof.
  refine (conj _ (conj _ (conj _ (conj _ (conj _ _))))).
  - intros Hn. apply len0_false in Hn. unfold AddState. rewrite Hn.
    split; [done|]. unfold GetState. simpl.
    case_decide as Hd.
    + subst. by rewrite lookup_insert_eq.
    + by rewrite lookup_insert_ne.
  - unfold RemoveState, GetState.
    destruct (mapName2State f !! name) eqn:Hl; simpl.
    + case_decide as Hd.
      * subst. by rewrite lookup_delete_eq.
      * by rewrite lookup_delete_ne.
    + case_decide as Hd; [by subst|done].
  - unfold RemoveState, GetState. by intros ->.
  - unfold RemoveState.
    destruct (mapName2State f !! name) eqn:Hl; simpl.
    + by rewrite lookup_delete_eq.
    + by rewrite Hl.
  - reflexivity.
  - intros Hn. apply len0_false in Hn. unfold AddState. by rewrite Hn.
Qed.

(** X4.  The registry of actions, in the same way. *)
Theorem action_registry f name (act : FSMAction W Param) name' :
  (name <> "" ->
   fst (AddAction f name (Some act)) = None /\
   GetAction (snd (AddAction f name (Some act))) name' =
     (if decide (name' = name) then Some act else GetAction f name')) /\
  GetAction (RemoveAction f name) name' =
    (if decide (name' = name) then None else GetAction f name') /\
  (GetAction f name = None -> RemoveAction f name = f) /\
  AddAction f "" (Some act) = (Some ErrNameLenZero, f) /\
  (name <> "" -> AddAction f name None = (Some ErrActNil, f)).
Proof.
  refine (conj _ (conj _ (conj _ (conj _ _)))).
  - intros Hn. apply len0_false in Hn. unfold AddAction. rewrite Hn.
    split; [done|]. unfold GetAction. simpl.
    case_decide as Hd.
    + subst. by rewrite lookup_insert_eq.
    + by rewrite lookup_insert_ne.
  - unfold RemoveAction, GetAction.
    destruct (mapName2Action f !! name) eqn:Hl; simpl.
    + case_decide as Hd.
      * subst. by rewrite lookup_delete_eq.
      * by rewrite lookup_delete_ne.
    + case_decide as Hd; [by subst|done].
  - unfold RemoveAction, GetAction. by intros ->.
  - reflexivity.
  - intros Hn. apply len0_false in Hn. unfold AddAction. by rewrite Hn.
Qed.

Lemma find_first_app from evt (l1 l2 : list FSMTransition) :
  find_first from evt (l1 ++ l2) =
  match find_first from evt l1 with
  | Some t => Some t
  | None => find_first from evt l2
  end.
Proof.
  induction l1 as [|t l1 IH]; simpl; [done|].
  by destruct (tran_matches from evt t).
Qed.

Lemma find_first_None from evt (l : list FSMTransition) :
  find_first from evt l = None <->
  Forall (fun t => tran_matches from evt t = false) l.
Proof.
  induction l as [|t l IH]; simpl.
  - split; [constructor|done].
  - destruct (tran_matches from evt t) eqn:Ht; split.
    + discriminate.
    + intros H. inversion H. congruence.
    + intros H. constructor; [done|]. by apply IH.
    + intros H. inversion H. by apply IH.
Qed.

Lemma tran_matches_other from evt from' evt' t :
  (from', evt') <> (from, evt) ->
  tran_matches from evt t = true -> tran_matches from' evt' t = false.
Proof.
  intros Hne Hm. apply tran_matches_spec in Hm as [Hf He].
  destruct (tran_matches from' evt' t) eqn:Hm'; [|done].
  apply tran_matches_spec in Hm' as [Hf' He']. congruence.
Qed.

Lemma remove_first_other from evt from' evt' (l : list FSMTransition) :
  (from', evt') <> (from, evt) ->
  find_first from' evt' (remove_first from evt l) = find_first from' evt' l.
Proof.
  intros Hne. induction l as [|t l IH]; simpl; [done|].
  destruct (tran_matches from evt t) eqn:Ht; simpl.
  - by rewrite (tran_matches_other _ _ _ _ _ Hne Ht).
  - by rewrite IH.
Qed.

Lemma remove_first_split from evt (l : list FSMTransition) t :
  find_first from evt l = Some t ->
  exists l1 l2, l = l1 ++ t :: l2 /\
    Forall (fun t' => tran_matches from evt t' = false) l1 /\
    remove_first from evt l = l1 ++ l2.
Proof.
  induction l as [|t' l IH]; simpl; [discriminate|].
  destruct (tran_matches from evt t') eqn:Ht.
  - intros [= ->]. exists [], l. auto.
  - intros H. destruct (IH H) as (l1 & l2 & -> & Hl1 & Hr).
    exists (t' :: l1), l2. rewrite Hr. auto.
Qed.

Lemma remove_first_no_match from evt (l : list FSMTransition) :
  find_first from evt l = None -> remove_first from evt l = l.
Proof.
  induction l as [|t l IH]; simpl; [done|].
  destruct (tran_matches from evt t); [discriminate|].
  intros H. by rewrite IH.
Qed.

(** X5.  The first match wins.  After [AddTransition] the lookup of a key that
    already had a transition still answers the old one: a second transition
    for the same state and event is stored but never found.  Only a key
    without transition gets the new record. *)
Theorem AddTransition_GetTransition f from evt to action from' evt' :
  from <> "" -> evt <> "" -> to <> "" ->
  GetTransition (snd (AddTransition f from evt to action)) from' evt' =
  match GetTransition f from' evt' with
  | Some t => Some t
  | None =>
      if decide ((from', evt') = (from, evt))
      then Some (NewFSMTransition from evt to action)
      else None
  end.
Proof.
  intros Hf He Ht. apply len0_false in Hf, He, Ht.
  unfold AddTransition. rewrite Hf, He, Ht. unfold GetTransition. simpl.
  destruct (len0 from') eqn:Hf'.
  { case_decide as Hd; [|done]. congruence. }
  destruct (len0 evt') eqn:He'.
  { case_decide as Hd; [|done]. congruence. }
  rewrite find_first_app.
  destruct (find_first from' evt' (transitions f)); [done|]. simpl.
  unfold tran_matches. simpl.
  case_decide as Hd.
  - injection Hd as -> ->. by rewrite !String.eqb_refl.
  - destruct (String.eqb from from') eqn:E1; [|done].
    destruct (String.eqb evt evt') eqn:E2; [|done].
    apply String.eqb_eq in E1, E2. congruence.
Qed.

(** X6.  [RemoveTransition] takes out the first transition of the key and
    nothing else: the lookup of every other key is as before, a table
    without transition for the key is left as it is, and a second
    transition of the same key, if there is one, is what the lookup finds
    afterwards. *)
Theorem RemoveTransition_spec f from evt :
  (forall from' evt', (from', evt') <> (from, evt) ->
   GetTransition (RemoveTransition f from evt) from' evt' =
   GetTransition f from' evt') /\
  (GetTransition f from evt = None -> RemoveTransition f from evt = f) /\
  (forall t, GetTransition f from evt = Some t ->
   exists l1 l2,
     transitions f = l1 ++ t :: l2 /\
     Forall (fun t' => tran_matches from evt t' = false) l1 /\
     transitions (RemoveTransition f from evt) = l1 ++ l2 /\
     GetTransition (RemoveTransition f from evt) from evt =
       find_first from evt l2).
Proof.
  refine (conj _ (conj _ _)).
  - intros from' evt' Hne. unfold RemoveTransition.
    destruct (len0 from); [done|]. destruct (len0 evt); [done|].
    unfold GetTransition. simpl.
    destruct (len0 from'); [done|]. destruct (len0 evt'); [done|].
    by apply remove_first_other.
  - unfold GetTransition, RemoveTransition.
    destruct (len0 from); [done|]. destruct (len0 evt); [done|].
    intros H. rewrite (remove_first_no_match _ _ _ H). by destruct f.
  - intros t. unfold GetTransition, RemoveTransition.
    destruct (len0 from); [done|]. destruct (len0 evt); [done|].
    intros H. destruct (remove_first_split _ _ _ _ H)
      as (l1 & l2 & Hl & Hl1 & Hr).
    exists l1, l2. simpl. rewrite Hr. repeat split; auto.
    rewrite find_first_app.
    by apply find_first_None in Hl1 as ->.
Qed.

(** X7.  [PopState] undoes [Trigger], whatever the history: after a [Trigger]
    that goes through, [PopState] succeeds and gives back the machine as it
    was before the [Trigger], calling B's [OnExit] with A and A's [OnEnter]
    with B. *)
Theorem Trigger_then_PopState f evt param w tran oldStat newStat :
  GetTransition f (GetCurState f) evt = Some tran ->
  GetState f (GetCurState f) = Some oldStat ->
  GetState f (To tran) = Some newStat ->
  not_vetoed f tran evt param w ->
  let A := GetCurState f in
  let B := To tran in
  let r1 := Trigger f evt param w in
  let r2 := PopState (fsm_of r1) (world_of r1) in
  err_of r2 = None /\
  fsm_of r2 = f /\
  trace (world_of r2) =
    trace (world_of r1) ++ [CallOnExit B A; CallOnEnter A B].
Proof.
  unfold GetCurState. intros Htran Hold Hnew Hgate. cbv zeta.
  rewrite (Trigger_through_eq _ _ _ _ _ _ _ Htran Hold Hnew Hgate).
  unfold fsm_of, world_of. simpl.
  rewrite (PopState_through_eq _ _ (oldStates f) (state f) newStat oldStat);
    [|done..].
  unfold err_of. simpl. repeat split. by destruct f.
Qed.

Lemma registered_same_states f f' s :
  mapName2State f' = mapName2State f -> registered f' s <-> registered f s.
Proof. unfold registered, GetState. by intros ->. Qed.

Lemma fsm_inv_same_states f f' :
  mapName2State f' = mapName2State f ->
  state f' = state f -> oldStates f' = oldStates f ->
  fsm_inv f -> fsm_inv f'.
Proof.
  unfold fsm_inv, registered, GetState. by intros -> -> ->.
Qed.

(** X8.  The invariant holds for a new machine and every operation but
    [RemoveState] keeps it. *)
Theorem fsm_inv_kept f w :
  (forall i, fsm_inv (NewFSM (W:=W) (Param:=Param) i)) /\
  (fsm_inv f ->
   (forall name stat, fsm_inv (snd (AddState f name stat))) /\
   (forall name act, fsm_inv (snd (AddAction f name act))) /\
   (forall name, fsm_inv (RemoveAction f name)) /\
   (forall from evt to action,
    fsm_inv (snd (AddTransition f from evt to action))) /\
   (forall from evt, fsm_inv (RemoveTransition f from evt)) /\
   (forall name, fsm_inv (fsm_of (Start f name w))) /\
   fsm_inv (fst (Stop f w)) /\
   (forall dt, fsm_inv (fst (Update f dt w))) /\
   (forall evt param, fsm_inv (fsm_of (Trigger f evt param w))) /\
   fsm_inv (fsm_of (PopState f w))).
Proof.
  split.
  { intros i. unfold fsm_inv, registered, GetState. simpl.
    rewrite lookup_empty. auto. }
  intros Hinv.
  refine (conj _ (conj _ (conj _ (conj _ (conj _ (conj _ (conj _
            (conj _ (conj _ _))))))))).
  - intros name stat. unfold AddState.
    destruct (len0 name) eqn:Hn; [done|]. destruct stat as [st|]; [|done].
    apply len0_false in Hn.
    destruct Hinv as (He & Hold & Hcur).
    assert (Hmono : forall s, registered f s ->
              registered (set_mapName2State f (<[name:=st]> (mapName2State f))) s).
    { intros s [x Hx]. unfold registered, GetState in *. simpl.
      destruct (decide (name = s)) as [->|Hne].
      - rewrite lookup_insert_eq. eauto.
      - rewrite lookup_insert_ne by done. eauto. }
    unfold fsm_inv. simpl. repeat split.
    + unfold GetState. simpl. by rewrite lookup_insert_ne.
    + eapply Forall_impl; [exact Hold|]. exact Hmono.
    + destruct Hcur as [Hc|Hc]; [left; by apply Hmono | by right].
  - intros name act. unfold AddAction.
    destruct (len0 name); [done|]. destruct act; [|done].
    by apply (fsm_inv_same_states f).
  - intros name. unfold RemoveAction.
    destruct (mapName2Action f !! name); [|done].
    by apply (fsm_inv_same_states f).
  - intros from evt to action. unfold AddTransition.
    destruct (len0 from); [done|]. destruct (len0 evt); [done|].
    destruct (len0 to); [done|]. by apply (fsm_inv_same_states f).
  - intros from evt. unfold RemoveTransition.
    destruct (len0 from); [done|]. destruct (len0 evt); [done|].
    by apply (fsm_inv_same_states f).
  - intros name. unfold Start, fsm_of.
    destruct (len0 name); [done|].
    destruct (GetState f name) as [stat|] eqn:Hst; [|done].
    unfold bind, ret, call_OnEnter. simpl.
    destruct Hinv as (He & Hold & Hcur).
    split; [exact He|]. split; [exact Hold|].
    left. change (is_Some (GetState f name)). by rewrite Hst.
  - unfold Stop. destruct (len0 (state f)); [done|].
    destruct (GetState f (state f)); done.
  - intros dt. unfold Update. destruct (GetState f (state f)); done.
  - intros evt param. unfold Trigger, fsm_of.
    destruct (len0 evt); [done|]. destruct (len0 (state f)); [done|].
    destruct (GetTransition f (state f) evt) as [tran|]; [|done].
    destruct (GetState f (state f)) as [oldStat|] eqn:Hos; [|done].
    destruct (GetState f (To tran)) as [newStat|] eqn:Hns; [|done].
    assert (Hgo : fsm_inv (set_state (set_oldStates f (oldStates f ++ [state f]))
                             (To tran))).
    { destruct Hinv as (He & Hold & Hcur).
      split; [exact He|]. split.
      - apply Forall_app. split; [exact Hold|]. constructor; [|constructor].
        change (is_Some (GetState f (state f))). by rewrite Hos.
      - left. change (is_Some (GetState f (To tran))). by rewrite Hns. }
    destruct (GetAction f (Action tran)) as [act|];
      unfold do_transition, bind, ret, call_OnExit, call_OnEnter,
        call_DoAction; simpl; [|done].
    destruct (DoAction act evt param (ext w)) as [[] e]; simpl; done.
  - unfold PopState, fsm_of.
    destruct (Nat.eqb (length (oldStates f)) 0); [done|].
    destruct (GetState f (state f)) as [oldStat|]; [|done].
    destruct (oldStates f !! _) as [top|] eqn:Htop; [|done].
    destruct (GetState f top) as [newStat|] eqn:Hns; [|done].
    unfold bind, ret, call_OnExit, call_OnEnter. simpl.
    destruct Hinv as (He & Hold & Hcur).
    split; [exact He|]. split.
    + apply Forall_take. exact Hold.
    + left. change (is_Some (GetState f top)). by rewrite Hns.
Qed.

(** X9.  While no state is removed, the two errors about unregistered states
    cannot come from the machine's own bookkeeping: under the invariant
    [PopState] fails only on an empty stack, and [Trigger] never reports
    its current state as missing. *)
Theorem fsm_inv_no_missing_state f w :
  fsm_inv f ->
  (err_of (PopState f w) = None \/ err_of (PopState f w) = Some ErrNoOldStat) /\
  (err_of (PopState f w) = Some ErrNoOldStat <-> oldStates f = []) /\
  (forall evt param,
   err_of (Trigger f evt param w) <> Some ErrFromStatNotExist).
Proof.
  intros (He & Hold & Hcur). unfold err_of.
  assert (Hpop : oldStates f <> [] ->
            fst (fst (PopState f w)) = None).
  { intros Hne. destruct (nonempty_snoc _ Hne) as (hist & top & Hl).
    destruct Hcur as [[c Hc]|[_ Hc]]; [|congruence].
    rewrite Hl in Hold. apply Forall_app in Hold as [_ Htop].
    inversion Htop as [|? ? [t Ht] _]. subst.
    by rewrite (PopState_through_eq f w hist top c t Hl Hc Ht). }
  refine (conj _ (conj _ _)).
  - destruct (oldStates f) as [|s l] eqn:Hl.
    + right. unfold PopState. by rewrite Hl.
    + left. by apply Hpop.
  - split.
    + intros Herr. destruct (oldStates f) as [|s l] eqn:Hl; [done|].
      rewrite Hpop in Herr; done.
    + intros Hl. unfold PopState. by rewrite Hl.
  - intros evt param. unfold Trigger.
    destruct (len0 evt); [done|].
    destruct (len0 (state f)) eqn:Hs; [done|].
    destruct (GetTransition f (state f) evt) as [tran|]; [|done].
    destruct Hcur as [[c Hc]|[Hc _]];
      [|apply len0_false in Hs; contradiction].
    rewrite Hc.
    destruct (GetState f (To tran)) as [newStat|]; [|done].
    destruct (GetAction f (Action tran)) as [act|];
      unfold do_transition, bind, ret, call_OnExit, call_OnEnter,
        call_DoAction; simpl; [|done].
    destruct (DoAction act evt param (ext w)) as [[] e]; simpl; done.
Qed.

End FsmExtra.

(** ** More on the behavior nodes: the selector, children, whole trees *)

Section BtExtra.

Import Bt.

Context {W Param : Type}.

Implicit Types (n c : BehaviorNode W Param) (w : World W Param).
Implicit Types (b : BaseBehaviorNode) (st : BNodeState).
Implicit Types (pre post l : list (BehaviorNode W Param)).

(** The loop of [RemoveChildByID]: take out the first child with the id. *)
Fixpoint RemoveChildByID_loop (nodeId : Z) (l : list (BehaviorNode W Param))
  : list (BehaviorNode W Param) :=
  match l with
  | [] => []
  | exist_ :: rest =>
      if Z.eqb (GetID exist_) nodeId then rest
      else exist_ :: RemoveChildByID_loop nodeId rest
  end.

(** [RemoveChildByID]: the method of [ControlNode] for the control nodes,
    the empty method of [BaseBehaviorNode] for the others. *)
Definition RemoveChildByID (n : BehaviorNode W Param) (nodeId : Z)
  : BehaviorNode W Param :=
  match n with
  | ControlNode b l => ControlNode b (RemoveChildByID_loop nodeId l)
  | SequenceNode b l => SequenceNode b (RemoveChildByID_loop nodeId l)
  | SelectNode b l => SelectNode b (RemoveChildByID_loop nodeId l)
  | ParallelNode b l => ParallelNode b (RemoveChildByID_loop nodeId l)
  | BaseNode _ | AgentBNode _ _ _ => n
  end.

(** The node keeps children: it is one of the four control nodes. *)
Definition keeps_children (n : BehaviorNode W Param) : bool :=
  match n with
  | ControlNode _ _ | SequenceNode _ _ | SelectNode _ _ | ParallelNode _ _ =>
      true
  | BaseNode _ | AgentBNode _ _ _ => false
  end.

(** A node whose [Execute] is empty: a bare base node, a bare control node
    (it inherits the empty [Execute] of its base), a leaf without
    listener. *)
Definition inert (n : BehaviorNode W Param) : bool :=
  match n with
  | BaseNode _ | ControlNode _ _ | AgentBNode _ None _ => true
  | _ => false
  end.

(** A leaf that is not completed and whose handler always answers
    [BNODE_STAT_SUCC]. *)
Definition succeeding_leaf (c : BehaviorNode W Param) : Prop :=
  exists b (li : AgentBNodeListener W Param) ps,
    c = AgentBNode b (Some li) ps /\
    base_IsCompleted b = false /\
    forall b' ps' u, res_state (OnBNodeAction li b' ps' u) = BNODE_STAT_SUCC.

(** The base of a node without what a tick may change: the state and the
    step. *)
Definition reset_base (b : BaseBehaviorNode) : BaseBehaviorNode :=
  {| nodeId := nodeId b; nodeType := nodeType b; actionId := actionId b;
     state := BNODE_STAT_NOT_EXECUTE; step := 0; maxStep := maxStep b |}.

(** The tree under a node with every state and every step reset. *)
Fixpoint skeleton (n : BehaviorNode W Param) : BehaviorNode W Param :=
  match n with
  | BaseNode b => BaseNode (reset_base b)
  | ControlNode b l => ControlNode (reset_base b) (map skeleton l)
  | SequenceNode b l => SequenceNode (reset_base b) (map skeleton l)
  | SelectNode b l => SelectNode (reset_base b) (map skeleton l)
  | ParallelNode b l => ParallelNode (reset_base b) (map skeleton l)
  | AgentBNode b li ps => AgentBNode (reset_base b) li ps
  end.

(** Induction on a node with the hypothesis for every child. *)
Section NodeInduction.

Variable P : BehaviorNode W Param -> Prop.
Hypothesis Hbase : forall b, P (BaseNode b).
Hypothesis Hctrl : forall b l, Forall P l -> P (ControlNode b l).
Hypothesis Hseq : forall b l, Forall P l -> P (SequenceNode b l).
Hypothesis Hsel : forall b l, Forall P l -> P (SelectNode b l).
Hypothesis Hpar : forall b l, Forall P l -> P (ParallelNode b l).
Hypothesis Hleaf : forall b li ps, P (AgentBNode b li ps).

Fixpoint BehaviorNode_children_ind (n : BehaviorNode W Param) : P n :=
  let all :=
    fix all (l : list (BehaviorNode W Param)) : Forall P l :=
      match l with
      | [] => @List.Forall_nil _ P
      | c :: rest =>
          @List.Forall_cons _ P c rest (BehaviorNode_children_ind c)
            (all rest)
      end in
  match n with
  | BaseNode b => Hbase b
  | ControlNode b l => Hctrl b l (all l)
  | SequenceNode b l => Hseq b l (all l)
  | SelectNode b l => Hsel b l (all l)
  | ParallelNode b l => Hpar b l (all l)
  | AgentBNode b li ps => Hleaf b li ps
  end.

End NodeInduction.

(** Either every child is completed, or there is a first one that is
    not. *)
Lemma first_pending l :
  forallb IsCompleted l = true \/
  exists pre c post,
    l = pre ++ c :: post /\ forallb IsCompleted pre = true /\
    IsCompleted c = false.
Proof.
  induction l as [|a l IH]; [by left|].
  destruct (IsCompleted a) eqn:Ha.
  - destruct IH as [IH|(pre & c & post & -> & Hpre & Hc)].
    + left. simpl. by rewrite Ha.
    + right. exists (a :: pre), c, post. simpl. by rewrite Ha.
  - right. exists [], a, l. auto.
Qed.

Lemma SelectNode_skips_completed b l w :
  base_IsCompleted b = false ->
  forallb IsCompleted l = true ->
  Execute (SelectNode b l) w =
  (SelectNode (SetState b BNODE_STAT_EXECUTING) l, w).
Proof.
  intros Hb Hl. simpl. rewrite Hb. unfold bind, ret.
  rewrite <- (app_nil_r l) at 2.
  rewrite (select_loop_skip _ l Hl). simpl. by rewrite app_nil_r.
Qed.

(** The whole result of one tick of a selector. *)
Lemma SelectNode_Execute_eq b pre c post w :
  base_IsCompleted b = false ->
  forallb IsCompleted pre = true ->
  IsCompleted c = false ->
  Execute (SelectNode b (pre ++ c :: post)) w =
  (SelectNode
     (SetState b
        (if negb (IsCompleted (fst (Execute c w))) then BNODE_STAT_EXECUTING
         else if decide (GetState (fst (Execute c w)) = BNODE_STAT_SUCC)
              then BNODE_STAT_SUCC
         else match post with
              | [] => BNODE_STAT_FAIL
              | _ :: _ => BNODE_STAT_EXECUTING
              end))
     (pre ++ fst (Execute c w) :: post),
   snd (Execute c w)).
Proof.
  intros Hb Hpre Hc. simpl. rewrite Hb. unfold bind.
  rewrite (select_loop_skip _ pre Hpre). cbv zeta.
  simpl select_loop. rewrite Hc. unfold bind.
  destruct (Execute c w) as [c' w'] eqn:Hex. simpl fst. simpl snd.
  rewrite len_app, len_cons.
  assert (Hlast : (Z.eqb (0 + len pre) (len pre + (1 + len post) - 1)) = true
                  <-> post = []).
  { rewrite Z.eqb_eq, <- len_zero. pose proof (len_nonneg post). lia. }
  destruct (IsCompleted c'); simpl; [|reflexivity].
  case_decide; simpl; [reflexivity|].
  destruct (Z.eqb (0 + len pre) (len pre + (1 + len post) - 1)) eqn:Hi; simpl.
  - destruct Hlast as [-> _]; reflexivity.
  - destruct post; [|reflexivity].
    destruct Hlast as [_ Hl]. discriminate Hl. reflexivity.
Qed.

(** X10.  One tick of a selector that is not completed, whose first child that
    is not completed is [c].  The tick executes [c] and nothing else.  The
    selector becomes [BNODE_STAT_SUCC] as soon as [c] succeeded, whatever
    its position; when [c] failed it becomes [BNODE_STAT_FAIL] only if [c]
    is the last child and stays [BNODE_STAT_EXECUTING] otherwise; it stays
    [BNODE_STAT_EXECUTING] when [c] is still not completed. *)
Theorem SelectNode_Execute_tick b pre c post w :
  base_IsCompleted b = false ->
  forallb IsCompleted pre = true ->
  IsCompleted c = false ->
  let c' := fst (Execute c w) in
  let n' := fst (Execute (SelectNode b (pre ++ c :: post)) w) in
  snd (Execute (SelectNode b (pre ++ c :: post)) w) = snd (Execute c w) /\
  n' = SelectNode (SetState b (GetState n')) (pre ++ c' :: post) /\
  (IsCompleted c' = false -> GetState n' = BNODE_STAT_EXECUTING) /\
  (GetState c' = BNODE_STAT_SUCC -> GetState n' = BNODE_STAT_SUCC) /\
  (GetState c' = BNODE_STAT_FAIL -> post = [] ->
   GetState n' = BNODE_STAT_FAIL) /\
  (GetState c' = BNODE_STAT_FAIL -> post <> [] ->
   GetState n' = BNODE_STAT_EXECUTING).
Proof.
  intros Hb Hpre Hc. cbv zeta.
  rewrite (SelectNode_Execute_eq b pre c post w Hb Hpre Hc).
  destruct (Execute c w) as [c' w'] eqn:Hex. simpl fst. simpl snd.
  unfold IsCompleted, GetState in *.
  destruct (base_IsCompleted (base_of c')) eqn:Hc'; simpl.
  - apply base_IsCompleted_true in Hc'.
    case_decide as Hf; simpl.
    + rewrite Hf. repeat split; try done.
    + destruct Hc' as [Hs|Hs]; [done|].
      rewrite Hs. destruct post; simpl; repeat split; try done.
  - repeat split; try done; intros Hf;
      assert (base_IsCompleted (base_of c') = true) as Hx
        by (apply base_IsCompleted_true; auto);
      congruence.
Qed.

Ltac run_nodes' := unfold bind, ret, passed; simpl.

Lemma Forall2_keep_refl l :
  Forall2 (fun c c' => IsCompleted c = true -> c' = c) l l.
Proof. induction l; constructor; auto. Qed.

Section LoopsKeepCompleted.

Variable exec : BehaviorNode W Param -> M W Param (BehaviorNode W Param).

Lemma sequence_loop_keeps l :
  forall i L st w,
  Forall2 (fun c c' => IsCompleted c = true -> c' = c) l
    (fst (fst (sequence_loop exec i L l st w))).
Proof.
  induction l as [|child rest IH]; intros i L st w; simpl.
  - constructor.
  - destruct (IsCompleted child) eqn:Hc; run_nodes'.
    + specialize (IH (i + 1) L st w).
      destruct (sequence_loop exec (i + 1) L rest st w) as [[l' s'] w'].
      simpl in *. constructor; auto.
    + destruct (exec child w) as [child' w'].
      destruct (IsCompleted child'); simpl;
        [case_decide; [|destruct (Z.eqb i (L - 1))]|]; simpl;
        (constructor; [congruence | apply Forall2_keep_refl]).
Qed.

Lemma select_loop_keeps l :
  forall i L st w,
  Forall2 (fun c c' => IsCompleted c = true -> c' = c) l
    (fst (fst (select_loop exec i L l st w))).
Proof.
  induction l as [|child rest IH]; intros i L st w; simpl.
  - constructor.
  - destruct (IsCompleted child) eqn:Hc; run_nodes'.
    + specialize (IH (i + 1) L st w).
      destruct (select_loop exec (i + 1) L rest st w) as [[l' s'] w'].
      simpl in *. constructor; auto.
    + destruct (exec child w) as [child' w'].
      destruct (IsCompleted child'); simpl;
        [case_decide; [|destruct (Z.eqb i (L - 1))]|]; simpl;
        (constructor; [congruence | apply Forall2_keep_refl]).
Qed.

Lemma parallel_loop_keeps l :
  forall st bFinish w,
  Forall2 (fun c c' => IsCompleted c = true -> c' = c) l
    (fst (fst (parallel_loop exec l st bFinish w))).
Proof.
  induction l as [|child rest IH]; intros st bFinish w; simpl.
  - constructor.
  - destruct (IsCompleted child) eqn:Hc; run_nodes'.
    + specialize (IH st bFinish w).
      destruct (parallel_loop exec rest st bFinish w) as [[l' s'] w'].
      simpl in *. constructor; auto.
    + destruct (exec child w) as [child' w'].
      destruct (IsCompleted child'); simpl.
      * case_decide; simpl.
        -- constructor; [congruence | apply Forall2_keep_refl].
        -- specialize (IH st bFinish w').
           destruct (parallel_loop exec rest st bFinish w') as [[l' s'] w''].
           simpl in *. constructor; [congruence | done].
      * specialize (IH st false w').
        destruct (parallel_loop exec rest st false w') as [[l' s'] w''].
        simpl in *. constructor; [congruence | done].
Qed.

End LoopsKeepCompleted.

(** X11.  A tick of any node leaves its completed children exactly as they are,
    at their places, and keeps the number of children: what a child has
    returned is not lost and the child is not run again, whatever its
    type. *)
Theorem completed_children_untouched n w :
  length (children (fst (Execute n w))) = length (children n) /\
  (forall (i : nat) c,
   children n !! i = Some c -> IsCompleted c = true ->
   children (fst (Execute n w)) !! i = Some c).
Proof.
  assert (H : Forall2 (fun c c' => IsCompleted c = true -> c' = c)
                (children n) (children (fst (Execute n w)))).
  { destruct n as [b|b l|b l|b l|b l|b li ps]; simpl.
    - constructor.
    - apply Forall2_keep_refl.
    - destruct (base_IsCompleted b); run_nodes';
        [apply Forall2_keep_refl|].
      pose proof (sequence_loop_keeps Execute l 0 (len l)
                    BNODE_STAT_EXECUTING w) as Hk.
      by destruct (sequence_loop _ _ _ _ _ _) as [[? ?] ?].
    - destruct (base_IsCompleted b); run_nodes';
        [apply Forall2_keep_refl|].
      pose proof (select_loop_keeps Execute l 0 (len l)
                    BNODE_STAT_EXECUTING w) as Hk.
      by destruct (select_loop _ _ _ _ _ _) as [[? ?] ?].
    - destruct (base_IsCompleted b); run_nodes';
        [apply Forall2_keep_refl|].
      pose proof (parallel_loop_keeps Execute l BNODE_STAT_EXECUTING true w)
        as Hk.
      destruct (parallel_loop _ _ _ _ _) as [[? [? ?]] ?]. simpl in *.
      by destruct (_ && _).
    - destruct li; constructor. }
  split.
  - symmetry. by eapply Forall2_length.
  - intros i c Hi Hc.
    destruct (Forall2_lookup_l _ _ _ _ _ H Hi) as (c' & Hi' & Hcc).
    rewrite Hi'. f_equal. by apply Hcc.
Qed.

Lemma reset_base_SetState b st : reset_base (SetState b st) = reset_base b.
Proof. reflexivity. Qed.

Lemma reset_base_UpdateStep (k : nat) b :
  reset_base (Nat.iter k UpdateStep b) = reset_base b.
Proof. induction k as [|k IH]; simpl; [done|]. by rewrite <- IH. Qed.

Section LoopsKeepSkeleton.

Lemma sequence_loop_skeleton l :
  Forall (fun c => forall w, skeleton (fst (Execute c w)) = skeleton c) l ->
  forall i L st w,
  map skeleton (fst (fst (sequence_loop Execute i L l st w))) =
  map skeleton l.
Proof.
  induction l as [|child rest IH]; intros Hl i L st w; simpl; [done|].
  inversion Hl as [|? ? Hchild Hrest]; subst.
  destruct (IsCompleted child); run_nodes'.
  - specialize (IH Hrest (i + 1) L st w).
    destruct (sequence_loop Execute (i + 1) L rest st w) as [[l' s'] w'].
    simpl in *. by rewrite IH.
  - specialize (Hchild w). destruct (Execute child w) as [child' w'].
    simpl in Hchild.
    destruct (IsCompleted child'); simpl;
      [case_decide; [|destruct (Z.eqb i (L - 1))]|]; simpl;
      by rewrite Hchild.
Qed.

Lemma select_loop_skeleton l :
  Forall (fun c => forall w, skeleton (fst (Execute c w)) = skeleton c) l ->
  forall i L st w,
  map skeleton (fst (fst (select_loop Execute i L l st w))) =
  map skeleton l.
Proof.
  induction l as [|child rest IH]; intros Hl i L st w; simpl; [done|].
  inversion Hl as [|? ? Hchild Hrest]; subst.
  destruct (IsCompleted child); run_nodes'.
  - specialize (IH Hrest (i + 1) L st w).
    destruct (select_loop Execute (i + 1) L rest st w) as [[l' s'] w'].
    simpl in *. by rewrite IH.
  - specialize (Hchild w). destruct (Execute child w) as [child' w'].
    simpl in Hchild.
    destruct (IsCompleted child'); simpl;
      [case_decide; [|destruct (Z.eqb i (L - 1))]|]; simpl;
      by rewrite Hchild.
Qed.

Lemma parallel_loop_skeleton l :
  Forall (fun c => forall w, skeleton (fst (Execute c w)) = skeleton c) l ->
  forall st bFinish w,
  map skeleton (fst (fst (parallel_loop Execute l st bFinish w))) =
  map skeleton l.
Proof.
  induction l as [|child rest IH]; intros Hl st bFinish w; simpl; [done|].
  inversion Hl as [|? ? Hchild Hrest]; subst.
  destruct (IsCompleted child); run_nodes'.
  - specialize (IH Hrest st bFinish w).
    destruct (parallel_loop Execute rest st bFinish w) as [[l' s'] w'].
    simpl in *. by rewrite IH.
  - specialize (Hchild w). destruct (Execute child w) as [child' w'].
    simpl in Hchild.
    destruct (IsCompleted child'); simpl.
    + case_decide; simpl; [by rewrite Hchild|].
      specialize (IH Hrest st bFinish w').
      destruct (parallel_loop Execute rest st bFinish w') as [[l' s'] w''].
      simpl in *. by rewrite IH, Hchild.
    + specialize (IH Hrest st false w').
      destruct (parallel_loop Execute rest st false w') as [[l' s'] w''].
      simpl in *. by rewrite IH, Hchild.
Qed.

End LoopsKeepSkeleton.

(** X12.  A tick changes states and steps and nothing else, anywhere in the tree
    under the node: ids, types, action ids, step limits, listeners and
    parameters stay, and no child is added, dropped or moved. *)
Theorem Execute_keeps_skeleton n w :
  skeleton (fst (Execute n w)) = skeleton n.
Proof.
  revert w. induction n as [b|b l IH|b l IH|b l IH|b l IH|b li ps]
    using BehaviorNode_children_ind; intros w;
    [reflexivity | reflexivity | simpl .. | ].
  - destruct (base_IsCompleted b); run_nodes'; [reflexivity|].
    pose proof (sequence_loop_skeleton l IH 0 (len l)
                  BNODE_STAT_EXECUTING w) as Hk.
    destruct (sequence_loop _ _ _ _ _ _) as [[? ?] ?]. simpl in *.
    by rewrite Hk.
  - destruct (base_IsCompleted b); run_nodes'; [reflexivity|].
    pose proof (select_loop_skeleton l IH 0 (len l)
                  BNODE_STAT_EXECUTING w) as Hk.
    destruct (select_loop _ _ _ _ _ _) as [[? ?] ?]. simpl in *.
    by rewrite Hk.
  - destruct (base_IsCompleted b); run_nodes'; [reflexivity|].
    pose proof (parallel_loop_skeleton l IH BNODE_STAT_EXECUTING true w)
      as Hk.
    destruct (parallel_loop _ _ _ _ _) as [[? [? ?]] ?]. simpl in *.
    destruct (_ && _); simpl; by rewrite Hk.
  - destruct li as [li|]; [|reflexivity].
    cbn [Execute]. unfold bind, ret, call_OnBNodeAction.
    cbn [fst snd skeleton].
    by rewrite reset_base_SetState, reset_base_UpdateStep.
Qed.

Lemma IsCompleted_true c :
  IsCompleted c = true <->
  GetState c = BNODE_STAT_SUCC \/ GetState c = BNODE_STAT_FAIL.
Proof. unfold IsCompleted, GetState. apply base_IsCompleted_true. Qed.

Lemma forallb_IsCompleted l :
  forallb IsCompleted l = true <-> Forall (fun c => IsCompleted c = true) l.
Proof.
  rewrite forallb_forall, Forall_forall. split; intros H x Hx; apply H;
    by apply list_elem_of_In.
Qed.

Lemma GetState_SequenceNode b st l :
  GetState (SequenceNode (W:=W) (Param:=Param) (SetState b st) l) = st.
Proof. done. Qed.

Lemma GetState_SelectNode b st l :
  GetState (SelectNode (W:=W) (Param:=Param) (SetState b st) l) = st.
Proof. done. Qed.

Lemma GetState_ParallelNode b st l :
  GetState (ParallelNode (W:=W) (Param:=Param) (SetState b st) l) = st.
Proof. done. Qed.

Lemma forallb_IsCompleted_false l :
  forallb IsCompleted l = false ->
  exists c, In c l /\ IsCompleted c = false.
Proof.
  induction l as [|x l IH]; simpl; [discriminate|].
  destruct (IsCompleted x) eqn:Hx; simpl.
  - intros H. destruct (IH H) as (c & Hin & Hc). eauto.
  - intros _. eauto.
Qed.

(** X13.  What the state of a sequence says after a tick.  It is not
    [BNODE_STAT_NOT_EXECUTE].  [BNODE_STAT_SUCC] means that every child is
    completed and the last one succeeded; [BNODE_STAT_FAIL] means that some
    child failed.  If no child had failed before the tick, then
    [BNODE_STAT_SUCC] means that every child succeeded, and a sequence that
    is still executing has no failed child. *)
Theorem SequenceNode_result b l w :
  base_IsCompleted b = false ->
  let n' := fst (Execute (SequenceNode b l) w) in
  GetState n' <> BNODE_STAT_NOT_EXECUTE /\
  (GetState n' = BNODE_STAT_SUCC ->
   Forall (fun c => IsCompleted c = true) (children n') /\
   exists c, last (children n') = Some c /\ GetState c = BNODE_STAT_SUCC) /\
  (GetState n' = BNODE_STAT_FAIL ->
   exists c, In c (children n') /\ GetState c = BNODE_STAT_FAIL) /\
  (Forall (fun c => GetState c <> BNODE_STAT_FAIL) l ->
   (GetState n' = BNODE_STAT_SUCC ->
    Forall (fun c => GetState c = BNODE_STAT_SUCC) (children n')) /\
   (GetState n' = BNODE_STAT_EXECUTING ->
    Forall (fun c => GetState c <> BNODE_STAT_FAIL) (children n'))).
Proof.
  intros Hb. cbv zeta.
  destruct (first_pending l) as [Hall|(pre & c & post & -> & Hpre & Hc)].
  { rewrite (SequenceNode_skips_completed b l w Hb Hall). simpl.
    repeat split; try done. }
  rewrite (SequenceNode_Execute_eq b pre c post w Hb Hpre Hc).
  destruct (Execute c w) as [c' w'] eqn:Hex. cbn [fst snd children].
  rewrite !GetState_SequenceNode.
  assert (Hpre' := proj1 (forallb_IsCompleted pre) Hpre).
  assert (Hin : In c' (pre ++ c' :: post))
    by (apply in_or_app; right; by left).
  assert (Hpre_succ :
            Forall (fun x => GetState x <> BNODE_STAT_FAIL) pre ->
            Forall (fun x => GetState x = BNODE_STAT_SUCC) pre).
  { rewrite !Forall_forall in *. intros Hno x Hx.
    destruct (proj1 (IsCompleted_true x) (Hpre' x Hx)); [done|].
    by specialize (Hno x Hx). }
  assert (Hkeep :
            Forall (fun x => GetState x <> BNODE_STAT_FAIL) (pre ++ c :: post) ->
            GetState c' <> BNODE_STAT_FAIL ->
            Forall (fun x => GetState x <> BNODE_STAT_FAIL) (pre ++ c' :: post)).
  { intros Hno Hc'. apply Forall_app in Hno as [Hno1 Hno2].
    inversion Hno2; subst. apply Forall_app. split; [done|].
    by constructor. }
  destruct (IsCompleted c') eqn:Hc'; cbn [negb].
  - apply IsCompleted_true in Hc' as Hst.
    case_decide as Hf.
    + repeat split; try done. intros _. by exists c'.
    + destruct Hst as [Hs|Hs]; [|done].
      destruct post as [|p post]; repeat split; try done.
      * apply Forall_app. split; [done|]. constructor; [|constructor].
        apply IsCompleted_true. by left.
      * exists c'. split; [by rewrite last_snoc|done].
      * intros _. match goal with Hno : Forall _ (pre ++ _) |- _ =>
          apply Forall_app in Hno as [Hno _];
          apply Forall_app; split; [by apply Hpre_succ|by constructor] end.
      * intros _. by apply Hkeep.
  - repeat split; try done. intros _. apply Hkeep; [done|].
    intros Hf. assert (IsCompleted c' = true) by (apply IsCompleted_true; auto).
    congruence.
Qed.

(** X14.  What the state of a selector says after a tick: the mirror image.
    [BNODE_STAT_SUCC] means that some child succeeded; [BNODE_STAT_FAIL]
    means that every child is completed and the last one failed, and, if no
    child had succeeded before the tick, that every child failed. *)
Theorem SelectNode_result b l w :
  base_IsCompleted b = false ->
  let n' := fst (Execute (SelectNode b l) w) in
  GetState n' <> BNODE_STAT_NOT_EXECUTE /\
  (GetState n' = BNODE_STAT_SUCC ->
   exists c, In c (children n') /\ GetState c = BNODE_STAT_SUCC) /\
  (GetState n' = BNODE_STAT_FAIL ->
   Forall (fun c => IsCompleted c = true) (children n') /\
   exists c, last (children n') = Some c /\ GetState c = BNODE_STAT_FAIL) /\
  (Forall (fun c => GetState c <> BNODE_STAT_SUCC) l ->
   (GetState n' = BNODE_STAT_FAIL ->
    Forall (fun c => GetState c = BNODE_STAT_FAIL) (children n')) /\
   (GetState n' = BNODE_STAT_EXECUTING ->
    Forall (fun c => GetState c <> BNODE_STAT_SUCC) (children n'))).
Proof.
  intros Hb. cbv zeta.
  destruct (first_pending l) as [Hall|(pre & c & post & -> & Hpre & Hc)].
  { rewrite (SelectNode_skips_completed b l w Hb Hall). simpl.
    repeat split; try done. }
  rewrite (SelectNode_Execute_eq b pre c post w Hb Hpre Hc).
  destruct (Execute c w) as [c' w'] eqn:Hex. cbn [fst snd children].
  rewrite !GetState_SelectNode.
  assert (Hpre' := proj1 (forallb_IsCompleted pre) Hpre).
  assert (Hin : In c' (pre ++ c' :: post))
    by (apply in_or_app; right; by left).
  assert (Hpre_fail :
            Forall (fun x => GetState x <> BNODE_STAT_SUCC) pre ->
            Forall (fun x => GetState x = BNODE_STAT_FAIL) pre).
  { rewrite !Forall_forall in *. intros Hno x Hx.
    destruct (proj1 (IsCompleted_true x) (Hpre' x Hx)); [|done].
    by specialize (Hno x Hx). }
  assert (Hkeep :
            Forall (fun x => GetState x <> BNODE_STAT_SUCC) (pre ++ c :: post) ->
            GetState c' <> BNODE_STAT_SUCC ->
            Forall (fun x => GetState x <> BNODE_STAT_SUCC) (pre ++ c' :: post)).
  { intros Hno Hc'. apply Forall_app in Hno as [Hno1 Hno2].
    inversion Hno2; subst. apply Forall_app. split; [done|].
    by constructor. }
  destruct (IsCompleted c') eqn:Hc'; cbn [negb].
  - apply IsCompleted_true in Hc' as Hst.
    case_decide as Hf.
    + repeat split; try done. intros _. by exists c'.
    + destruct Hst as [Hs|Hs]; [done|].
      destruct post as [|p post]; repeat split; try done.
      * apply Forall_app. split; [done|]. constructor; [|constructor].
        apply IsCompleted_true. by right.
      * exists c'. split; [by rewrite last_snoc|done].
      * intros _. match goal with Hno : Forall _ (pre ++ _) |- _ =>
          apply Forall_app in Hno as [Hno _];
          apply Forall_app; split; [by apply Hpre_fail|by constructor] end.
      * intros _. by apply Hkeep.
  - repeat split; try done. intros _. apply Hkeep; [done|].
    intros Hf. assert (IsCompleted c' = true) by (apply IsCompleted_true; auto).
    congruence.
Qed.

(** The children that a tick of a parallel node has not executed are as
    they were. *)
Lemma execute_pending_keeps l :
  forall w,
  Forall2 (fun c c' => IsCompleted c = true -> c' = c) l
    (fst (execute_pending l w)).
Proof.
  induction l as [|child rest IH]; intros w; simpl; [constructor|].
  destruct (IsCompleted child) eqn:Hc; run_nodes'.
  - specialize (IH w). destruct (execute_pending rest w) as [l' w'].
    simpl in *. by constructor.
  - destruct (Execute child w) as [child' w1].
    specialize (IH w1). destruct (execute_pending rest w1) as [l' w'].
    simpl in *. constructor; [congruence|done].
Qed.

(** Either no executed child fails in the tick, or there is a first one
    that does. *)
Lemma parallel_cases l :
  forall w,
  no_failure l (fst (execute_pending l w)) = true \/
  exists pre c post,
    l = pre ++ c :: post /\
    no_failure pre (fst (execute_pending pre w)) = true /\
    IsCompleted c = false /\
    GetState (fst (Execute c (snd (execute_pending pre w))))
    = BNODE_STAT_FAIL.
Proof.
  induction l as [|child rest IH]; intros w; [by left|].
  simpl. destruct (IsCompleted child) eqn:Hc.
  - run_nodes'. destruct (IH w) as [Hno|(pre & c & post & -> & Hno & Hc' & Hf)].
    + left. destruct (execute_pending rest w) as [l' w']. simpl in *.
      exact Hno.
    + right. exists (child :: pre), c, post. simpl. rewrite Hc. run_nodes'.
      destruct (execute_pending pre w) as [l' w']. simpl in *.
      rewrite ?Hc. auto.
  - run_nodes'. destruct (Execute child w) as [child' w1] eqn:Hex.
    destruct (decide (GetState child' = BNODE_STAT_FAIL)) as [Hf|Hf].
    + right. exists [], child, rest. simpl. rewrite Hex. auto.
    + destruct (IH w1) as [Hno|(pre & c & post & -> & Hno & Hc' & Hf')].
      * left. destruct (execute_pending rest w1) as [l' w']. simpl in *.
        rewrite bool_decide_eq_false_2 by done. exact Hno.
      * right. exists (child :: pre), c, post. simpl. rewrite Hc. run_nodes'.
        rewrite Hex. destruct (execute_pending pre w1) as [l' w']. simpl in *.
        rewrite ?Hc. simpl. rewrite bool_decide_eq_false_2 by done. auto.
Qed.

(** X15.  What the state of a parallel node says after a tick.  It is not
    [BNODE_STAT_NOT_EXECUTE].  [BNODE_STAT_SUCC] means that every child is
    completed, [BNODE_STAT_FAIL] that some child failed, and
    [BNODE_STAT_EXECUTING] that some child is not completed.  If no child
    had failed before the tick, [BNODE_STAT_SUCC] means that every child
    succeeded. *)
Theorem ParallelNode_result b l w :
  base_IsCompleted b = false ->
  let n' := fst (Execute (ParallelNode b l) w) in
  GetState n' <> BNODE_STAT_NOT_EXECUTE /\
  (GetState n' = BNODE_STAT_SUCC ->
   Forall (fun c => IsCompleted c = true) (children n')) /\
  (GetState n' = BNODE_STAT_FAIL ->
   exists c, In c (children n') /\ GetState c = BNODE_STAT_FAIL) /\
  (GetState n' = BNODE_STAT_EXECUTING ->
   exists c, In c (children n') /\ IsCompleted c = false) /\
  (Forall (fun c => GetState c <> BNODE_STAT_FAIL) l ->
   GetState n' = BNODE_STAT_SUCC ->
   Forall (fun c => GetState c = BNODE_STAT_SUCC) (children n')).
Proof.
  intros Hb. cbv zeta.
  destruct (parallel_cases l w)
    as [Hno|(pre & c & post & -> & Hno & Hc & Hf)].
  - cbn [Execute]. rewrite Hb. unfold bind.
    rewrite (parallel_loop_no_failure l _ _ _ Hno). cbn [fst snd andb].
    pose proof (execute_pending_keeps l w) as Hkeep.
    destruct (execute_pending l w) as [l' w'] eqn:Hep. cbn [fst] in *.
    destruct (forallb IsCompleted l') eqn:Hall; simpl.
    + apply forallb_IsCompleted in Hall.
      repeat split; try done. intros Hnf _.
      clear Hep. revert l' Hno Hkeep Hall.
      induction l as [|x l IH]; intros [|x' l'] Hno Hkeep Hall;
        try (inversion Hkeep; fail); [constructor|].
      inversion Hkeep; subst. inversion Hall; subst. inversion Hnf; subst.
      simpl in Hno. apply andb_true_iff in Hno as [Hx Hno].
      constructor; [|by apply IH].
      destruct (proj1 (IsCompleted_true x') ltac:(done)) as [?|Hfail];
        [done|].
      apply orb_true_iff in Hx as [Hx|Hx].
      * match goal with Hk : IsCompleted x = true -> _ |- _ =>
          rewrite (Hk Hx) in Hfail end. done.
      * apply negb_true_iff, bool_decide_eq_false in Hx. done.
    + repeat split; try done. intros _.
      by apply forallb_IsCompleted_false.
  - cbn [Execute]. rewrite Hb. unfold bind.
    rewrite (parallel_loop_failure pre c post _ _ _ Hno Hc Hf).
    cbn [fst snd]. rewrite andb_false_r. simpl.
    repeat split; try done. intros _.
    exists (fst (Execute c (snd (execute_pending pre w)))).
    split; [|done]. apply in_or_app. right. by left.
Qed.

(** What one execution of a succeeding leaf does. *)
Lemma succeeding_leaf_Execute c w :
  succeeding_leaf c ->
  IsCompleted c = false /\
  GetState (fst (Execute c w)) = BNODE_STAT_SUCC /\
  IsCompleted (fst (Execute c w)) = true /\
  count_calls is_OnBNodeAction (trace (snd (Execute c w))) =
    S (count_calls is_OnBNodeAction (trace w)).
Proof.
  intros (b & li & ps & -> & Hb & Hli).
  cbn [Execute]. unfold bind, ret, call_OnBNodeAction. cbn [fst snd].
  unfold IsCompleted, GetState. cbn [base_of SetState state].
  rewrite base_IsCompleted_SetState, Hli. cbn [trace].
  rewrite count_calls_snoc. simpl. repeat split; auto. lia.
Qed.

(** X16.  A sequence over [n] pending leaves that always succeed takes exactly
    [n] ticks: it is executing after each of the first [n - 1] ticks and
    succeeded after the [n]-th, and the handlers have been called [n]
    times in all, one leaf per tick. *)
Theorem sequence_of_succeeding_leaves todo :
  forall finished b w,
  Forall succeeding_leaf todo ->
  todo <> [] ->
  forallb IsCompleted finished = true ->
  base_IsCompleted b = false ->
  let n := SequenceNode b (finished ++ todo) in
  GetState (fst (Execute_n (length todo) n w)) = BNODE_STAT_SUCC /\
  count_calls is_OnBNodeAction (trace (snd (Execute_n (length todo) n w))) =
    (count_calls is_OnBNodeAction (trace w) + length todo)%nat /\
  (forall k : nat, (0 < k < length todo)%nat ->
   GetState (fst (Execute_n k n w)) = BNODE_STAT_EXECUTING /\
   count_calls is_OnBNodeAction (trace (snd (Execute_n k n w))) =
     (count_calls is_OnBNodeAction (trace w) + k)%nat).
Proof.
  induction todo as [|c tail IH]; intros finished b w Hall Hne Hdone Hb;
    [done|]. cbv zeta.
  inversion Hall as [|? ? Hc Htail]; subst.
  destruct (succeeding_leaf_Execute c w Hc) as (Hpend & Hsucc & Hcomp & Hcnt).
  pose proof (SequenceNode_Execute_eq b finished c tail w Hb Hdone Hpend) as Htick.
  rewrite Hcomp in Htick. cbn [negb] in Htick.
  rewrite Hsucc in Htick.
  destruct (decide (BNODE_STAT_SUCC = BNODE_STAT_FAIL)) as [|_]; [done|].
  destruct tail as [|c2 tail].
  - cbn [length]. rewrite Execute_n_S, Htick. cbn [fst snd Execute_n].
    unfold ret. cbn [fst snd]. rewrite GetState_SequenceNode.
    repeat split; [lia | lia | lia].
  - set (done' := finished ++ [fst (Execute c w)]).
    assert (Hdone' : forallb IsCompleted done' = true).
    { unfold done'. rewrite forallb_app, Hdone. simpl. by rewrite Hcomp. }
    assert (Hshape : finished ++ fst (Execute c w) :: c2 :: tail
                     = done' ++ c2 :: tail)
      by (unfold done'; by rewrite <- app_assoc).
    rewrite Hshape in Htick.
    destruct (IH done' (SetState b BNODE_STAT_EXECUTING) (snd (Execute c w))
                Htail ltac:(done) Hdone' eq_refl) as (IH1 & IH2 & IH3).
    cbv zeta in IH1, IH2, IH3.
    change (length (c :: c2 :: tail)) with (S (length (c2 :: tail))).
    rewrite Execute_n_S, Htick. cbn [fst snd].
    refine (conj IH1 (conj _ _)).
    + rewrite IH2, Hcnt. lia.
    + intros [|[|k]] Hk; [lia| |].
      * rewrite Execute_n_S, Htick. cbn [fst snd Execute_n]. unfold ret.
        cbn [fst snd]. rewrite GetState_SequenceNode. split; [done|lia].
      * rewrite Execute_n_S, Htick. cbn [fst snd].
        destruct (IH3 (S k)) as [Hk1 Hk2]; [simpl in *; lia|].
        split; [done|]. rewrite Hk2, Hcnt. lia.
Qed.

(** What the walk of a parallel node does to children that are completed
    or succeeding leaves: all are completed afterwards, none has failed,
    and each pending leaf has had its handler called once. *)
Lemma execute_pending_succeeding l :
  forall w,
  Forall (fun c => IsCompleted c = true \/ succeeding_leaf c) l ->
  forallb IsCompleted (fst (execute_pending l w)) = true /\
  no_failure l (fst (execute_pending l w)) = true /\
  count_calls is_OnBNodeAction (trace (snd (execute_pending l w))) =
    (count_calls is_OnBNodeAction (trace w)
     + length (List.filter (fun c => negb (IsCompleted c)) l))%nat.
Proof.
  induction l as [|c rest IH]; intros w Hall; simpl.
  - repeat split. lia.
  - inversion Hall as [|? ? Hc Hrest]; subst.
    destruct (IsCompleted c) eqn:Hcc; run_nodes'.
    + destruct (IH w Hrest) as (H1 & H2 & H3).
      destruct (execute_pending rest w) as [l' w']. simpl in *.
      rewrite Hcc. auto.
    + destruct Hc as [Hc|Hc]; [congruence|].
      destruct (succeeding_leaf_Execute c w Hc) as (_ & Hsucc & Hcomp & Hcnt).
      destruct (Execute c w) as [c' w1]. simpl in *.
      destruct (IH w1 Hrest) as (H1 & H2 & H3).
      destruct (execute_pending rest w1) as [l' w']. simpl in *.
      rewrite Hcomp, Hsucc, H1, H2. simpl. repeat split. lia.
Qed.

(** X17.  A parallel node whose pending children are all leaves that always
    succeed is done in one tick: it succeeds, and the handler of every
    pending leaf has been called once in that tick. *)
Theorem parallel_of_succeeding_leaves b l w :
  base_IsCompleted b = false ->
  Forall (fun c => IsCompleted c = true \/ succeeding_leaf c) l ->
  GetState (fst (Execute (ParallelNode b l) w)) = BNODE_STAT_SUCC /\
  count_calls is_OnBNodeAction (trace (snd (Execute (ParallelNode b l) w))) =
    (count_calls is_OnBNodeAction (trace w)
     + length (List.filter (fun c => negb (IsCompleted c)) l))%nat.
Proof.
  intros Hb Hall.
  destruct (execute_pending_succeeding l w Hall) as (H1 & H2 & H3).
  cbn [Execute]. rewrite Hb. unfold bind.
  rewrite (parallel_loop_no_failure l _ _ _ H2). cbn [fst snd andb].
  rewrite H1. simpl. done.
Qed.

Lemma inert_Execute c w : inert c = true -> Execute c w = (c, w).
Proof. destruct c as [| | | | |b [li|] ps]; simpl; done. Qed.

(** X18.  A sequence or a selector whose first pending child has an empty
    [Execute] is stuck: every tick leaves it executing, with the same
    children and the same world, and it never gets to the children behind.
    So is one whose children are all completed while it is not. *)
Theorem stuck_composites b pre c post w (k : nat) :
  base_IsCompleted b = false ->
  forallb IsCompleted pre = true ->
  (inert c = true -> IsCompleted c = false ->
   Execute_n (S k) (SequenceNode b (pre ++ c :: post)) w =
     (SequenceNode (SetState b BNODE_STAT_EXECUTING) (pre ++ c :: post), w) /\
   Execute_n (S k) (SelectNode b (pre ++ c :: post)) w =
     (SelectNode (SetState b BNODE_STAT_EXECUTING) (pre ++ c :: post), w)) /\
  (Execute_n (S k) (SequenceNode b pre) w =
     (SequenceNode (SetState b BNODE_STAT_EXECUTING) pre, w) /\
   Execute_n (S k) (SelectNode b pre) w =
     (SelectNode (SetState b BNODE_STAT_EXECUTING) pre, w)).
Proof.
  intros Hb Hpre. split.
  - intros Hin Hc.
    assert (Hseq : forall b0, base_IsCompleted b0 = false ->
              Execute (SequenceNode b0 (pre ++ c :: post)) w =
              (SequenceNode (SetState b0 BNODE_STAT_EXECUTING)
                 (pre ++ c :: post), w)).
    { intros b0 Hb0.
      rewrite (SequenceNode_Execute_eq b0 pre c post w Hb0 Hpre Hc).
      rewrite (inert_Execute c w Hin). cbn [fst snd]. by rewrite Hc. }
    assert (Hsel : forall b0, base_IsCompleted b0 = false ->
              Execute (SelectNode b0 (pre ++ c :: post)) w =
              (SelectNode (SetState b0 BNODE_STAT_EXECUTING)
                 (pre ++ c :: post), w)).
    { intros b0 Hb0.
      rewrite (SelectNode_Execute_eq b0 pre c post w Hb0 Hpre Hc).
      rewrite (inert_Execute c w Hin). cbn [fst snd]. by rewrite Hc. }
    split; revert b Hb; induction k as [|k IH]; intros b Hb;
      rewrite Execute_n_S, ?Hseq, ?Hsel by done; cbn [fst snd];
      try reflexivity; by rewrite IH.
  - split; revert b Hb; induction k as [|k IH]; intros b Hb;
      rewrite Execute_n_S,
        ?(SequenceNode_skips_completed b pre w Hb Hpre),
        ?(SelectNode_skips_completed b pre w Hb Hpre); cbn [fst snd];
      try reflexivity; by rewrite IH.
Qed.

Lemma GetChildByID_loop_app (nodeId : Z) l1 l2 :
  GetChildByID_loop nodeId (l1 ++ l2) =
  match GetChildByID_loop nodeId l1 with
  | Some x => Some x
  | None => GetChildByID_loop nodeId l2
  end.
Proof.
  induction l1 as [|x l1 IH]; simpl; [done|].
  by destruct (Z.eqb (GetID x) nodeId).
Qed.

Lemma RemoveChildByID_loop_other (nodeId nodeId' : Z) l :
  nodeId' <> nodeId ->
  GetChildByID_loop nodeId' (RemoveChildByID_loop nodeId l) =
  GetChildByID_loop nodeId' l.
Proof.
  intros Hne. induction l as [|x l IH]; simpl; [done|].
  destruct (Z.eqb (GetID x) nodeId) eqn:Hx; simpl.
  - apply Z.eqb_eq in Hx.
    destruct (Z.eqb (GetID x) nodeId') eqn:Hx'; [|done].
    apply Z.eqb_eq in Hx'. congruence.
  - by rewrite IH.
Qed.

Lemma RemoveChildByID_loop_absent (nodeId : Z) l :
  GetChildByID_loop nodeId l = None -> RemoveChildByID_loop nodeId l = l.
Proof.
  induction l as [|x l IH]; simpl; [done|].
  destruct (Z.eqb (GetID x) nodeId); [discriminate|].
  intros H. by rewrite IH.
Qed.

Lemma RemoveChildByID_loop_found (nodeId : Z) l x :
  GetChildByID_loop nodeId l = Some x ->
  GetID x = nodeId /\
  exists l1 l2, l = l1 ++ x :: l2 /\
    GetChildByID_loop nodeId l1 = None /\
    RemoveChildByID_loop nodeId l = l1 ++ l2.
Proof.
  induction l as [|y l IH]; simpl; [discriminate|].
  destruct (Z.eqb (GetID y) nodeId) eqn:Hy.
  - intros [= ->]. apply Z.eqb_eq in Hy. split; [done|].
    exists [], l. auto.
  - intros H. destruct (IH H) as (Hid & l1 & l2 & -> & Hl1 & Hr).
    split; [done|]. exists (y :: l1), l2. simpl. rewrite Hy, Hr. auto.
Qed.

(** X19.  The children of a node by id.  Only the control nodes take children;
    [AddChild] appends, so that a child whose id is already taken by an
    earlier child is stored but not found by [GetChildByID].
    [RemoveChildByID] takes out the first child with the id and no other:
    the lookup of every other id is as before, and a node without such a
    child is left as it is. *)
Theorem children_by_id n c (nodeId nodeId' : Z) :
  AddChild n None = n /\
  (keeps_children n = false -> AddChild n (Some c) = n) /\
  (keeps_children n = true ->
   children (AddChild n (Some c)) = children n ++ [c] /\
   GetChildByID (AddChild n (Some c)) nodeId =
     match GetChildByID n nodeId with
     | Some x => Some x
     | None => if Z.eqb (GetID c) nodeId then Some c else None
     end) /\
  (nodeId' <> nodeId ->
   GetChildByID (RemoveChildByID n nodeId) nodeId' = GetChildByID n nodeId') /\
  (GetChildByID n nodeId = None -> RemoveChildByID n nodeId = n) /\
  (forall x, GetChildByID n nodeId = Some x ->
   GetID x = nodeId /\
   exists l1 l2,
     children n = l1 ++ x :: l2 /\
     GetChildByID_loop nodeId l1 = None /\
     children (RemoveChildByID n nodeId) = l1 ++ l2).
Proof.
  unfold GetChildByID.
  refine (conj _ (conj _ (conj _ (conj _ (conj _ _))))).
  - reflexivity.
  - by destruct n.
  - destruct n; try discriminate; intros _; simpl;
      (split; [done|]); rewrite GetChildByID_loop_app; simpl;
      by destruct (GetChildByID_loop nodeId subNodes).
  - intros Hne. destruct n; simpl; try done;
      by apply RemoveChildByID_loop_other.
  - destruct n; simpl; try done; intros H;
      by rewrite RemoveChildByID_loop_absent.
  - intros x. destruct n; simpl; try discriminate; intros H;
      by apply RemoveChildByID_loop_found.
Qed.

(** X20.  The step counter is a [uint32]: [k] calls of [UpdateStep] add [k]
    modulo [2^32], so that the counter stays in range and wraps to zero
    after [2^32 - 1]; nothing else of the node changes. *)
Theorem UpdateStep_wraps b (k : nat) :
  0 <= step b < 2 ^ 32 ->
  step (Nat.iter k UpdateStep b) = (step b + Z.of_nat k) mod 2 ^ 32 /\
  0 <= step (Nat.iter k UpdateStep b) < 2 ^ 32 /\
  (step b = 2 ^ 32 - 1 -> step (UpdateStep b) = 0) /\
  state (Nat.iter k UpdateStep b) = state b /\
  reset_base (Nat.iter k UpdateStep b) = reset_base b.
Proof.
  intros Hr.
  assert (Hstep : step (Nat.iter k UpdateStep b)
                  = (step b + Z.of_nat k) mod 2 ^ 32).
  { induction k as [|k IH].
    - simpl. rewrite Z.add_0_r, Z.mod_small; lia.
    - change (Nat.iter (S k) UpdateStep b)
        with (UpdateStep (Nat.iter k UpdateStep b)).
      change (step (UpdateStep (Nat.iter k UpdateStep b)))
        with ((step (Nat.iter k UpdateStep b) + 1) mod 2 ^ 32).
      rewrite IH. rewrite Z.add_mod_idemp_l by lia. f_equal. lia. }
  refine (conj Hstep (conj _ (conj _ (conj _ _)))).
  - rewrite Hstep. apply Z.mod_pos_bound. lia.
  - intros Hmax. unfold UpdateStep. cbn [step]. rewrite Hmax.
    replace (2 ^ 32 - 1 + 1) with (2 ^ 32) by lia. apply Z.mod_same. lia.
  - clear. induction k as [|k IH]; simpl; done.
  - apply reset_base_UpdateStep.
Qed.

End BtExtra.

(** ** The earlier machine of [src/fsm.go]: transitions in a map by name

    The first half of [src/fsm.go] is the machine that [src/agent.go] is
    written against: [NewFSM(id, firstState)], no [Start] and no [Stop], and
    the transitions in a Go map keyed by a name.  Its [Trigger] looks for
    the transition by ranging over that map, in the order, not fixed by the
    language, in which Go enumerates it: here the enumeration is an
    argument of [Trigger].

    The states and the actions are values of any type that implements the
    interface; the hooks act on a context [X] of the caller. *)

Module FsmMap.

Import Fsm.

(** [type FSMState interface] and [type FSMAction interface], for the
    implementing type. *)
Class FSMStateImpl (X S : Type) : Type := {
  impl_GetName : S -> string;
  impl_OnEnter : S -> string -> X -> X;
  impl_OnUpdate : S -> Z -> X -> X;
  impl_OnExit : S -> string -> X -> X
}.

Class FSMActionImpl (X Param A : Type) : Type := {
  impl_act_GetName : A -> string;
  impl_DoAction : A -> string -> list Param -> X -> bool * X
}.

Section Machine.

Context {S A : Type}.

Record FSM : Type := mkFSM {
  id : Z;
  state : string;
  oldStates : list string;
  mapName2State : gmap string S;
  mapName2Action : gmap string A;
  mapName2transition : gmap string FSMTransition
}.

Definition NewFSM (id : Z) (firstState : string) : FSM :=
  {| id := id;
     state := firstState;
     oldStates := [];
     mapName2State := empty;
     mapName2Action := empty;
     mapName2transition := empty |}.

Definition GetID (f : FSM) : Z := id f.

Definition GetCurState (f : FSM) : string := state f.

Definition set_state (f : FSM) (s : string) : FSM :=
  {| id := id f; state := s; oldStates := oldStates f;
     mapName2State := mapName2State f;
     mapName2Action := mapName2Action f;
     mapName2transition := mapName2transition f |}.

Definition set_oldStates (f : FSM) (l : list string) : FSM :=
  {| id := id f; state := state f; oldStates := l;
     mapName2State := mapName2State f;
     mapName2Action := mapName2Action f;
     mapName2transition := mapName2transition f |}.

Definition set_mapName2State (f : FSM) (m : gmap string S) : FSM :=
  {| id := id f; state := state f; oldStates := oldStates f;
     mapName2State := m;
     mapName2Action := mapName2Action f;
     mapName2transition := mapName2transition f |}.

Definition set_mapName2Action (f : FSM) (m : gmap string A) : FSM :=
  {| id := id f; state := state f; oldStates := oldStates f;
     mapName2State := mapName2State f;
     mapName2Action := m;
     mapName2transition := mapName2transition f |}.

Definition set_mapName2transition (f : FSM)
  (m : gmap string FSMTransition) : FSM :=
  {| id := id f; state := state f; oldStates := oldStates f;
     mapName2State := mapName2State f;
     mapName2Action := mapName2Action f;
     mapName2transition := m |}.

Definition AddState (f : FSM) (name : string) (stat : option S)
  : option error * FSM :=
  if len0 name then (Some ErrNameLenZero, f)
  else match stat with
       | None => (Some ErrStatNil, f)
       | Some st => (None, set_mapName2State f (<[name := st]> (mapName2State f)))
       end.

Definition RemoveState (f : FSM) (name : string) : FSM :=
  match mapName2State f !! name with
  | Some _ => set_mapName2State f (delete name (mapName2State f))
  | None => f
  end.

Definition GetState (f : FSM) (name : string) : option S :=
  mapName2State f !! name.

Definition AddAction (f : FSM) (name : string) (act : option A)
  : option error * FSM :=
  if len0 name then (Some ErrNameLenZero, f)
  else match act with
       | None => (Some ErrActNil, f)
       | Some a => (None, set_mapName2Action f (<[name := a]> (mapName2Action f)))
       end.

Definition RemoveAction (f : FSM) (name : string) : FSM :=
  match mapName2Action f !! name with
  | Some _ => set_mapName2Action f (delete name (mapName2Action f))
  | None => f
  end.

Definition GetAction (f : FSM) (name : string) : option A :=
  mapName2Action f !! name.

(** A [nil] [*FSMTransition] is [None]. *)
Definition AddTransition (f : FSM) (name : string)
  (tran : option FSMTransition) : option error * FSM :=
  if len0 name then (Some ErrNameLenZero, f)
  else match tran with
       | None => (Some ErrTranNil, f)
       | Some t =>
           (None, set_mapName2transition f
                    (<[name := t]> (mapName2transition f)))
       end.

Definition RemoveTransition (f : FSM) (name : string) : FSM :=
  match mapName2transition f !! name with
  | Some _ => set_mapName2transition f (delete name (mapName2transition f))
  | None => f
  end.

Definition GetTransition (f : FSM) (name : string)
  : option FSMTransition :=
  mapName2transition f !! name.

(** [order] is one of the orders in which [range f.mapName2transition] can
    enumerate the transitions of [f]. *)
Definition enumerates (f : FSM) (order : list FSMTransition) : Prop :=
  Permutation order (snd <$> map_to_list (mapName2transition f)).

Section Hooks.

Context {X Param : Type}.
Context {state_impl : FSMStateImpl X S}.
Context {action_impl : FSMActionImpl X Param A}.

Definition Update (f : FSM) (dt : Z) (x : X) : FSM * X :=
  match GetState f (state f) with
  | Some stat => (f, impl_OnUpdate stat dt x)
  | None => (f, x)
  end.

(** The tail of [Trigger], after the gate. *)
Definition do_transition (f : FSM) (oldStat newStat : S)
  (triggerTran : FSMTransition) (x : X) : option error * FSM * X :=
  let x1 := impl_OnExit oldStat (To triggerTran) x in
  let x2 := impl_OnEnter newStat (state f) x1 in
  (None, set_state (set_oldStates f (oldStates f ++ [state f]))
                   (To triggerTran), x2).

(** [Trigger], with the enumeration of the map that its loop follows; the
    loop stops at the first transition out of the current state on the
    event. *)
Definition Trigger (f : FSM) (order : list FSMTransition) (evt : string)
  (param : list Param) (x : X) : option error * FSM * X :=
  if len0 evt then (Some ErrEvtEmpty, f, x)
  else if len0 (state f) then (Some ErrNoFirstStat, f, x)
  else match find_first (state f) evt order with
  | None => (Some ErrTranNotExist, f, x)
  | Some triggerTran =>
    match GetState f (state f) with
    | None => (Some ErrFromStatNotExist, f, x)
    | Some oldStat =>
      match GetState f (To triggerTran) with
      | None => (Some ErrToStatNotExist, f, x)
      | Some newStat =>
        match GetAction f (Action triggerTran) with
        | Some act =>
            let (succ, x') := impl_DoAction act evt param x in
            if negb succ then (None, f, x')
            else do_transition f oldStat newStat triggerTran x'
        | None => do_transition f oldStat newStat triggerTran x
        end
      end
    end
  end.

Definition PopState (f : FSM) (x : X) : option error * FSM * X :=
  if Nat.eqb (length (oldStates f)) 0 then (Some ErrNoOldStat, f, x)
  else match GetState f (state f) with
  | None => (Some ErrFromStatNotExist, f, x)
  | Some oldStat =>
    let idx := (length (oldStates f) - 1)%nat in
    match oldStates f !! idx with
    | Some top =>
      match GetState f top with
      | None => (Some ErrToStatNotExist, f, x)
      | Some newStat =>
          let x1 := impl_OnExit oldStat top x in
          let x2 := impl_OnEnter newStat (state f) x1 in
          (None, set_oldStates (set_state f top) (take idx (oldStates f)), x2)
      end
    | None => (Some ErrNoOldStat, f, x)
    end
  end.

End Hooks.

End Machine.

Arguments FSM : clear implicits.

End FsmMap.

(** ** The agent of [src/agent.go]

    [BaseAgent] keeps a machine, whose states and actions are
    [AgentFsmState] and [AgentFsmAction] values that call back into the
    agent, and the tables of the functions and trees of the user.

    - The functions of the user act on a world [U]; a function value that
      is [nil] is [None], and calling it panics.
    - The listener of the states and actions of an agent is the agent
      itself: the hook is run on the agent as it is at the time of the call.
    - The listeners of the leaves of the trees kept by an agent act on the
      world of the user, and a tree is kept under one state. *)

Module Agent.

Import Fsm.

Definition AGENT_STATE_IDLE : string := "agent_state_idle".

(** The listener of a state or of an action: the agent that made it. *)
Inductive AgentRef : Type := self.

(** [type AgentFsmState struct]; a [nil] listener is [None]. *)
Record AgentFsmState : Type := NewAgentFsmState {
  state_name : string;
  state_listener : option AgentRef
}.

(** [type AgentFsmAction struct]. *)
Record AgentFsmAction : Type := NewAgentFsmAction {
  action_name : string;
  action_listener : option AgentRef
}.

(** An error of the agent: one made on the spot by [errors.New], or one of
    the machine. *)
Inductive agent_error : Type :=
| errors_New (msg : string)
| fsm_error (e : error).

Section BaseAgent.

Context {U Param : Type}.

Abbreviation AgentFsmStateEnterFunc := (string -> U -> U).
Abbreviation AgentFsmStateUpdateFunc := (Z -> U -> U).
Abbreviation AgentFsmStateExitFunc := (string -> U -> U).
Abbreviation AgentFsmActionFunc :=
  (string -> list Param -> U -> (bool * U)%type).
Abbreviation AgentBNodeActionFunc :=
  (Bt.BaseBehaviorNode -> list Param -> U -> Bt.ActionResult U).

Record BaseAgent : Type := mkBaseAgent {
  agentId : Z;
  fsm : FsmMap.FSM AgentFsmState AgentFsmAction;
  mapState2BTree : gmap string (option (Bt.BehaviorTree U Param));
  mapState2EnterFunc : gmap string (option AgentFsmStateEnterFunc);
  mapState2UpdateFunc : gmap string (option AgentFsmStateUpdateFunc);
  mapState2ExitFunc : gmap string (option AgentFsmStateExitFunc);
  mapName2FsmActionFunc : gmap string (option AgentFsmActionFunc);
  mapId2BNodeActionFunc : gmap Z (option AgentBNodeActionFunc)
}.

Definition NewBaseAgent (agentId : Z) : BaseAgent :=
  {| agentId := agentId;
     fsm := FsmMap.NewFSM agentId AGENT_STATE_IDLE;
     mapState2BTree := empty;
     mapState2EnterFunc := empty;
     mapState2UpdateFunc := empty;
     mapState2ExitFunc := empty;
     mapName2FsmActionFunc := empty;
     mapId2BNodeActionFunc := empty |}.

Definition GetID (a : BaseAgent) : Z := agentId a.

Definition set_fsm (a : BaseAgent)
  (f : FsmMap.FSM AgentFsmState AgentFsmAction) : BaseAgent :=
  {| agentId := agentId a; fsm := f;
     mapState2BTree := mapState2BTree a;
     mapState2EnterFunc := mapState2EnterFunc a;
     mapState2UpdateFunc := mapState2UpdateFunc a;
     mapState2ExitFunc := mapState2ExitFunc a;
     mapName2FsmActionFunc := mapName2FsmActionFunc a;
     mapId2BNodeActionFunc := mapId2BNodeActionFunc a |}.

Definition set_mapState2BTree (a : BaseAgent)
  (m : gmap string (option (Bt.BehaviorTree U Param))) : BaseAgent :=
  {| agentId := agentId a; fsm := fsm a;
     mapState2BTree := m;
     mapState2EnterFunc := mapState2EnterFunc a;
     mapState2UpdateFunc := mapState2UpdateFunc a;
     mapState2ExitFunc := mapState2ExitFunc a;
     mapName2FsmActionFunc := mapName2FsmActionFunc a;
     mapId2BNodeActionFunc := mapId2BNodeActionFunc a |}.

Definition set_mapName2FsmActionFunc (a : BaseAgent)
  (m : gmap string (option AgentFsmActionFunc)) : BaseAgent :=
  {| agentId := agentId a; fsm := fsm a;
     mapState2BTree := mapState2BTree a;
     mapState2EnterFunc := mapState2EnterFunc a;
     mapState2UpdateFunc := mapState2UpdateFunc a;
     mapState2ExitFunc := mapState2ExitFunc a;
     mapName2FsmActionFunc := m;
     mapId2BNodeActionFunc := mapId2BNodeActionFunc a |}.

Definition set_mapId2BNodeActionFunc (a : BaseAgent)
  (m : gmap Z (option AgentBNodeActionFunc)) : BaseAgent :=
  {| agentId := agentId a; fsm := fsm a;
     mapState2BTree := mapState2BTree a;
     mapState2EnterFunc := mapState2EnterFunc a;
     mapState2UpdateFunc := mapState2UpdateFunc a;
     mapState2ExitFunc := mapState2ExitFunc a;
     mapName2FsmActionFunc := mapName2FsmActionFunc a;
     mapId2BNodeActionFunc := m |}.

(** [AddState]; the error of [a.fsm.AddState] is dropped, as in the
    source. *)
Definition AddState (a : BaseAgent) (name : string)
  (behaviorTree : option (Bt.BehaviorTree U Param))
  (enterFunc : option AgentFsmStateEnterFunc)
  (updateFunc : option AgentFsmStateUpdateFunc)
  (exitFunc : option AgentFsmStateExitFunc)
  : option agent_error * BaseAgent :=
  if len0 name then (Some (errors_New "state is nil"), a)
  else
    let stat := NewAgentFsmState name (Some self) in
    let f := snd (FsmMap.AddState (fsm a) name (Some stat)) in
    (None,
     {| agentId := agentId a; fsm := f;
        mapState2BTree := <[name := behaviorTree]> (mapState2BTree a);
        mapState2EnterFunc := <[name := enterFunc]> (mapState2EnterFunc a);
        mapState2UpdateFunc := <[name := updateFunc]> (mapState2UpdateFunc a);
        mapState2ExitFunc := <[name := exitFunc]> (mapState2ExitFunc a);
        mapName2FsmActionFunc := mapName2FsmActionFunc a;
        mapId2BNodeActionFunc := mapId2BNodeActionFunc a |}).

(** [delete(m, name)] behind [_, ok := m[name]; if ok]. *)
Definition delete_if_present {K V} `{Countable K} (k : K) (m : gmap K V)
  : gmap K V :=
  match m !! k with
  | Some _ => delete k m
  | None => m
  end.

Definition RemoveState (a : BaseAgent) (name : string)
  : option agent_error * BaseAgent :=
  if len0 name then (Some (errors_New "state is nil"), a)
  else
    (None,
     {| agentId := agentId a;
        fsm := FsmMap.RemoveState (fsm a) name;
        mapState2BTree := delete_if_present name (mapState2BTree a);
        mapState2EnterFunc := delete_if_present name (mapState2EnterFunc a);
        mapState2UpdateFunc := delete_if_present name (mapState2UpdateFunc a);
        mapState2ExitFunc := delete_if_present name (mapState2ExitFunc a);
        mapName2FsmActionFunc := mapName2FsmActionFunc a;
        mapId2BNodeActionFunc := mapId2BNodeActionFunc a |}).

Definition AddAction (a : BaseAgent) (name : string)
  (actionFunc : option AgentFsmActionFunc)
  : option agent_error * BaseAgent :=
  if len0 name then (Some (errors_New "action is nil"), a)
  else
    let act := NewAgentFsmAction name (Some self) in
    let f := snd (FsmMap.AddAction (fsm a) name (Some act)) in
    (None,
     set_mapName2FsmActionFunc (set_fsm a f)
       (<[name := actionFunc]> (mapName2FsmActionFunc a))).

Definition RemoveAction (a : BaseAgent) (name : string)
  : option agent_error * BaseAgent :=
  if len0 name then (Some (errors_New "action is nil"), a)
  else
    (None,
     set_mapName2FsmActionFunc
       (set_fsm a (FsmMap.RemoveAction (fsm a) name))
       (delete_if_present name (mapName2FsmActionFunc a))).

Definition AddTransition (a : BaseAgent) (name : string)
  (tran : option FSMTransition) : option agent_error * BaseAgent :=
  if len0 name then (Some (errors_New "action is nil"), a)
  else
    let r := FsmMap.AddTransition (fsm a) name tran in
    (fsm_error <$> fst r, set_fsm a (snd r)).

Definition RemoveTransition (a : BaseAgent) (name : string)
  : option agent_error * BaseAgent :=
  if len0 name then (Some (errors_New "action is nil"), a)
  else (None, set_fsm a (FsmMap.RemoveTransition (fsm a) name)).

Definition AddBNodeActionHandleFunc (a : BaseAgent) (actionId : Z)
  (handleFunc : option AgentBNodeActionFunc)
  : option agent_error * BaseAgent :=
  match mapId2BNodeActionFunc a !! actionId with
  | Some _ => (Some (errors_New "handle func exist"), a)
  | None =>
      (None, set_mapId2BNodeActionFunc a
               (<[actionId := handleFunc]> (mapId2BNodeActionFunc a)))
  end.

(** What a call into the agent leaves: the agent and the world, or a
    panic. *)
Inductive Outcome : Type :=
| Running (a : BaseAgent) (w : World U Param)
| Panicked.

(** The call [f(...)] of a function of the user that only acts on the
    world. *)
Definition call_func (a : BaseAgent) (w : World U Param)
  (f : option (U -> U)) : Outcome :=
  match f with
  | Some g => Running a (mkWorld (g (ext w)) (trace w))
  | None => Panicked
  end.

Definition OnEnterFsmState (state fromState : string) (x : Outcome)
  : Outcome :=
  match x with
  | Panicked => Panicked
  | Running a w =>
      match mapState2EnterFunc a !! state with
      | Some f => call_func a w ((fun g => g fromState) <$> f)
      | None => Running a w
      end
  end.

(** [OnUpdateFsmState]: the update function if the state has an entry for
    one, else the tick of the tree of the state.  [btree.Execute()] on a
    [nil] tree panics. *)
Definition OnUpdateFsmState (state : string) (dt : Z) (x : Outcome)
  : Outcome :=
  match x with
  | Panicked => Panicked
  | Running a w =>
      match mapState2UpdateFunc a !! state with
      | Some f => call_func a w ((fun g => g dt) <$> f)
      | None =>
          match mapState2BTree a !! state with
          | Some (Some btree) =>
              let (btree', w') := Bt.Tree_Execute btree w in
              Running (set_mapState2BTree a
                         (<[state := Some btree']> (mapState2BTree a))) w'
          | Some None => Panicked
          | None => Running a w
          end
      end
  end.

Definition OnExitFsmState (state toState : string) (x : Outcome)
  : Outcome :=
  match x with
  | Panicked => Panicked
  | Running a w =>
      match mapState2ExitFunc a !! state with
      | Some f => call_func a w ((fun g => g toState) <$> f)
      | None => Running a w
      end
  end.

(** [OnFsmAction]; after a panic there is no answer, and none is used. *)
Definition OnFsmAction (action evt : string) (param : list Param)
  (x : Outcome) : bool * Outcome :=
  match x with
  | Panicked => (false, Panicked)
  | Running a w =>
      match mapName2FsmActionFunc a !! action with
      | Some (Some f) =>
          let r := f evt param (ext w) in
          (fst r, Running a (mkWorld (snd r) (trace w)))
      | Some None => (false, Panicked)
      | None => (false, Running a w)
      end
  end.

(** [OnBNodeAction] for the node with the base [node]: the state that is
    returned, the node and the world after the handler, or a panic. *)
Definition OnBNodeAction (a : BaseAgent) (node : Bt.BaseBehaviorNode)
  (param : list Param) (u : U)
  : option (Bt.BNodeState * Bt.BaseBehaviorNode * U) :=
  match mapId2BNodeActionFunc a !! Bt.actionId node with
  | Some (Some f) =>
      let r := f node param u in
      Some (Bt.res_state r, Nat.iter (Bt.res_steps r) Bt.UpdateStep node,
            Bt.res_ext r)
  | Some None => None
  | None => Some (Bt.BNODE_STAT_NOT_EXECUTE, node, u)
  end.

(** The methods of [AgentFsmState] and of [AgentFsmAction]: through the
    listener if there is one. *)
#[export] Instance AgentFsmState_impl
  : FsmMap.FSMStateImpl Outcome AgentFsmState :=
  FsmMap.Build_FSMStateImpl Outcome AgentFsmState
    state_name
    (fun s fromState x =>
       match state_listener s with
       | Some self => OnEnterFsmState (state_name s) fromState x
       | None => x
       end)
    (fun s dt x =>
       match state_listener s with
       | Some self => OnUpdateFsmState (state_name s) dt x
       | None => x
       end)
    (fun s toState x =>
       match state_listener s with
       | Some self => OnExitFsmState (state_name s) toState x
       | None => x
       end).

#[export] Instance AgentFsmAction_impl
  : FsmMap.FSMActionImpl Outcome Param AgentFsmAction :=
  FsmMap.Build_FSMActionImpl Outcome Param AgentFsmAction
    action_name
    (fun act evt param x =>
       match action_listener act with
       | Some self => OnFsmAction (action_name act) evt param x
       | None => (false, x)
       end).

(** [Update]: the update of the machine, whose hooks run on the agent. *)
Definition Update (a : BaseAgent) (dt : Z) (w : World U Param) : Outcome :=
  snd (FsmMap.Update (fsm a) dt (Running a w)).

End BaseAgent.

Arguments BaseAgent : clear implicits.
Arguments Outcome : clear implicits.

End Agent.

(** ** Properties of the earlier machine and of the agent *)

Section FsmMapProperties.

Import Fsm.

Context {S A X Param : Type}.
Context {state_impl : FsmMap.FSMStateImpl X S}.
Context {action_impl : FsmMap.FSMActionImpl X Param A}.

Implicit Types (f : FsmMap.FSM S A) (order : list FSMTransition).

Lemma find_first_In from evt (l : list FSMTransition) t :
  find_first from evt l = Some t ->
  In t l /\ tran_matches from evt t = true.
Proof.
  induction l as [|t' l IH]; simpl; [discriminate|].
  destruct (tran_matches from evt t') eqn:Ht.
  - intros [= ->]. auto.
  - intros H. destruct (IH H). auto.
Qed.

Lemma find_first_no_match from evt (l : list FSMTransition) :
  find_first from evt l = None ->
  forall t, In t l -> tran_matches from evt t = false.
Proof.
  induction l as [|t' l IH]; simpl; [done|].
  destruct (tran_matches from evt t') eqn:Ht; [discriminate|].
  intros H t [<-|Hin]; auto.
Qed.

(** Two enumerations of the same transitions find the same one, when the
    transitions that match are all the same record. *)
Lemma find_first_Permutation from evt (l1 l2 : list FSMTransition) :
  Permutation l1 l2 ->
  (forall t1 t2, In t1 l1 -> In t2 l1 ->
   tran_matches from evt t1 = true -> tran_matches from evt t2 = true ->
   t1 = t2) ->
  find_first from evt l1 = find_first from evt l2.
Proof.
  intros Hp Hsame.
  assert (Hin : forall t, In t l1 <-> In t l2).
  { intros t. rewrite <- !list_elem_of_In. by rewrite Hp. }
  destruct (find_first from evt l1) as [t1|] eqn:H1;
    destruct (find_first from evt l2) as [t2|] eqn:H2; [| | |done].
  - apply find_first_In in H1 as [Hi1 Hm1].
    apply find_first_In in H2 as [Hi2 Hm2].
    f_equal. apply Hsame; auto. by apply Hin.
  - apply find_first_In in H1 as [Hi1 Hm1].
    pose proof (find_first_no_match _ _ _ H2 t1 (proj1 (Hin t1) Hi1)).
    congruence.
  - apply find_first_In in H2 as [Hi2 Hm2].
    pose proof (find_first_no_match _ _ _ H1 t2 (proj2 (Hin t2) Hi2)).
    congruence.
Qed.

Lemma enumerates_In f order t :
  FsmMap.enumerates f order ->
  In t order <-> exists name, FsmMap.mapName2transition f !! name = Some t.
Proof.
  unfold FsmMap.enumerates. intros Hp.
  rewrite <- list_elem_of_In, Hp, list_elem_of_fmap. split.
  - intros ([name t'] & -> & Hin). exists name.
    by apply elem_of_map_to_list in Hin.
  - intros (name & Hn). exists (name, t). split; [done|].
    by apply elem_of_map_to_list.
Qed.

(** X21.  [Trigger] does not depend on the order in which Go enumerates the map
    of transitions, as long as the transitions out of the current state on
    the event, under whatever names they are stored, are one and the same
    record. *)
Theorem Trigger_order_independent f order1 order2 evt (param : list Param)
  (x : X) :
  FsmMap.enumerates f order1 ->
  FsmMap.enumerates f order2 ->
  (forall name1 name2 t1 t2,
   FsmMap.mapName2transition f !! name1 = Some t1 ->
   FsmMap.mapName2transition f !! name2 = Some t2 ->
   tran_matches (FsmMap.state f) evt t1 = true ->
   tran_matches (FsmMap.state f) evt t2 = true ->
   t1 = t2) ->
  FsmMap.Trigger f order1 evt param x = FsmMap.Trigger f order2 evt param x.
Proof.
  intros H1 H2 Hsame. unfold FsmMap.Trigger.
  rewrite (find_first_Permutation (FsmMap.state f) evt order1 order2); [done| |].
  - unfold FsmMap.enumerates in *. by rewrite H1, H2.
  - intros t1 t2 Hi1 Hi2 Hm1 Hm2.
    apply (enumerates_In f order1 t1 H1) in Hi1 as (n1 & Hn1).
    apply (enumerates_In f order1 t2 H1) in Hi2 as (n2 & Hn2).
    by apply (Hsame n1 n2).
Qed.

(** X22.  With several transitions out of the current state on the event, any of
    them can be the one that [Trigger] takes: for each there is an
    enumeration of the map under which the machine ends in its target. *)
Theorem Trigger_takes_any_match f name t evt (param : list Param) (x : X)
  oldStat newStat :
  evt <> "" -> FsmMap.state f <> "" ->
  FsmMap.mapName2transition f !! name = Some t ->
  tran_matches (FsmMap.state f) evt t = true ->
  FsmMap.GetState f (FsmMap.state f) = Some oldStat ->
  FsmMap.GetState f (To t) = Some newStat ->
  FsmMap.GetAction f (Action t) = None ->
  exists order,
    FsmMap.enumerates f order /\
    fst (fst (FsmMap.Trigger f order evt param x)) = None /\
    FsmMap.GetCurState (snd (fst (FsmMap.Trigger f order evt param x)))
    = To t.
Proof.
  intros He Hs Hn Hm Hold Hnew Hact.
  apply len0_false in He, Hs.
  assert (Hin : elem_of (name, t) (map_to_list (FsmMap.mapName2transition f)))
    by by apply elem_of_map_to_list.
  apply list_elem_of_split in Hin as (l1 & l2 & Hl).
  exists (t :: (snd <$> (l1 ++ l2))). split.
  - unfold FsmMap.enumerates. rewrite Hl, !fmap_app. simpl.
    by rewrite Permutation_middle.
  - unfold FsmMap.Trigger. rewrite He, Hs. simpl. rewrite Hm, Hold, Hnew, Hact.
    done.
Qed.

End FsmMapProperties.

Section AgentProperties.

Import Fsm Agent.

Context {U Param : Type}.

Implicit Types (a : BaseAgent U Param) (w : World U Param).
Implicit Types (name : string) (dt : Z).

(** What holds of every agent that the methods of [BaseAgent] make: the
    machine has stayed in its first state with an empty history; the
    states of the machine are the names that have a tree, an enter, an
    update and an exit entry, each with the state object that the agent
    made for it. *)
Definition agent_inv (a : BaseAgent U Param) : Prop :=
  FsmMap.state (fsm a) = AGENT_STATE_IDLE /\
  FsmMap.oldStates (fsm a) = [] /\
  (forall name s, FsmMap.mapName2State (fsm a) !! name = Some s ->
   s = NewAgentFsmState name (Some self)) /\
  dom (FsmMap.mapName2State (fsm a)) = dom (mapState2UpdateFunc a) /\
  dom (mapState2BTree a) = dom (mapState2UpdateFunc a) /\
  dom (mapState2EnterFunc a) = dom (mapState2UpdateFunc a) /\
  dom (mapState2ExitFunc a) = dom (mapState2UpdateFunc a).

Lemma delete_if_present_delete {K V} `{Countable K} (k : K) (m : gmap K V) :
  delete_if_present k m = delete k m.
Proof.
  unfold delete_if_present. destruct (m !! k) eqn:Hk; [done|].
  symmetry. by apply delete_id.
Qed.

Lemma agent_inv_same a a' :
  FsmMap.state (fsm a') = FsmMap.state (fsm a) ->
  FsmMap.oldStates (fsm a') = FsmMap.oldStates (fsm a) ->
  FsmMap.mapName2State (fsm a') = FsmMap.mapName2State (fsm a) ->
  mapState2BTree a' = mapState2BTree a ->
  mapState2EnterFunc a' = mapState2EnterFunc a ->
  mapState2UpdateFunc a' = mapState2UpdateFunc a ->
  mapState2ExitFunc a' = mapState2ExitFunc a ->
  agent_inv a -> agent_inv a'.
Proof. unfold agent_inv. by intros -> -> -> -> -> -> ->. Qed.

(** A hook of the agent that does not panic leaves an agent with the same
    machine and the same tables of functions. *)
Lemma call_func_Running a w (f : option (U -> U)) a' w' :
  call_func a w f = Running a' w' -> a' = a /\ trace w' = trace w.
Proof. destruct f; simpl; [|discriminate]. by intros [= <- <-]. Qed.

(** Under the invariant a call of [OnUpdateFsmState] that does not panic
    gives the agent back as it was, and calls no leaf handler: the state
    has an update entry, or it has no tree either. *)
Lemma OnUpdateFsmState_inv a name dt w :
  agent_inv a ->
  forall a' w',
  OnUpdateFsmState name dt (Running a w) = Running a' w' ->
  a' = a /\ trace w' = trace w.
Proof.
  intros (Hs & Ho & Hobj & Hd1 & Hd2 & Hd3 & Hd4) a' w'. simpl.
  destruct (mapState2UpdateFunc a !! name) as [f|] eqn:Hu.
  - apply call_func_Running.
  - assert (Ht : mapState2BTree a !! name = None).
    { apply not_elem_of_dom. rewrite Hd2. by apply not_elem_of_dom. }
    rewrite Ht. by intros [= <- <-].
Qed.

(** X23.  The invariant holds of a new agent and every method keeps it. *)
Theorem agent_inv_kept a w :
  (forall i, agent_inv (NewBaseAgent (U:=U) (Param:=Param) i)) /\
  (agent_inv a ->
   (forall name t fe fu fx, agent_inv (snd (AddState a name t fe fu fx))) /\
   (forall name, agent_inv (snd (RemoveState a name))) /\
   (forall name f, agent_inv (snd (AddAction a name f))) /\
   (forall name, agent_inv (snd (RemoveAction a name))) /\
   (forall name t, agent_inv (snd (AddTransition a name t))) /\
   (forall name, agent_inv (snd (RemoveTransition a name))) /\
   (forall i h, agent_inv (snd (AddBNodeActionHandleFunc a i h))) /\
   (forall dt a' w', Update a dt w = Running a' w' -> agent_inv a') /\
   (forall name dt a' w',
    OnUpdateFsmState name dt (Running a w) = Running a' w' -> agent_inv a') /\
   (forall name from a' w',
    OnEnterFsmState name from (Running a w) = Running a' w' ->
    agent_inv a') /\
   (forall name to a' w',
    OnExitFsmState name to (Running a w) = Running a' w' -> agent_inv a') /\
   (forall name evt param a' w',
    snd (OnFsmAction name evt param (Running a w)) = Running a' w' ->
    agent_inv a')).
Proof.
  split.
  { intros i. unfold agent_inv. simpl. rewrite !dom_empty_L.
    repeat split; done. }
  intros Hinv.
  refine (conj _ (conj _ (conj _ (conj _ (conj _ (conj _ (conj _ (conj _
            (conj _ (conj _ (conj _ _))))))))))).
  - intros name t fe fu fx. unfold AddState.
    destruct (len0 name) eqn:Hn; [done|].
    destruct Hinv as (Hs & Ho & Hobj & Hd1 & Hd2 & Hd3 & Hd4).
    unfold FsmMap.AddState. rewrite Hn. unfold agent_inv. simpl.
    rewrite !dom_insert_L, Hd1, Hd2, Hd3, Hd4.
    repeat split; try done.
    intros name' s. destruct (decide (name = name')) as [->|Hne].
    + rewrite lookup_insert_eq. by intros [= <-].
    + rewrite lookup_insert_ne by done. apply Hobj.
  - intros name. unfold RemoveState.
    destruct (len0 name) eqn:Hn; [done|].
    destruct Hinv as (Hs & Ho & Hobj & Hd1 & Hd2 & Hd3 & Hd4).
    assert (Hrm : FsmMap.RemoveState (fsm a) name =
                  FsmMap.set_mapName2State (fsm a)
                    (delete name (FsmMap.mapName2State (fsm a)))).
    { unfold FsmMap.RemoveState.
      destruct (FsmMap.mapName2State (fsm a) !! name) eqn:Hl; [done|].
      rewrite delete_id by done. by destruct (fsm a). }
    unfold agent_inv. simpl. rewrite Hrm, !delete_if_present_delete. simpl.
    rewrite !dom_delete_L, Hd1, Hd2, Hd3, Hd4.
    repeat split; try done.
    intros name' s. destruct (decide (name = name')) as [->|Hne].
    + by rewrite lookup_delete_eq.
    + rewrite lookup_delete_ne by done. apply Hobj.
  - intros name f. unfold AddAction.
    destruct (len0 name) eqn:Hn; [done|]. simpl.
    unfold FsmMap.AddAction. rewrite Hn. simpl.
    apply (agent_inv_same a); try done.
  - intros name. unfold RemoveAction.
    destruct (len0 name) eqn:Hn; [done|]. simpl.
    unfold FsmMap.RemoveAction.
    destruct (FsmMap.mapName2Action (fsm a) !! name);
      by apply (agent_inv_same a).
  - intros name t. unfold AddTransition.
    destruct (len0 name) eqn:Hn; [done|]. simpl.
    unfold FsmMap.AddTransition. rewrite Hn.
    destruct t; simpl; by apply (agent_inv_same a).
  - intros name. unfold RemoveTransition.
    destruct (len0 name) eqn:Hn; [done|]. simpl.
    unfold FsmMap.RemoveTransition.
    destruct (FsmMap.mapName2transition (fsm a) !! name);
      by apply (agent_inv_same a).
  - intros i h. unfold AddBNodeActionHandleFunc.
    destruct (mapId2BNodeActionFunc a !! i); [done|].
    by apply (agent_inv_same a).
  - intros dt a' w'. unfold Update, FsmMap.Update.
    destruct (FsmMap.GetState (fsm a) (FsmMap.state (fsm a))) as [s|] eqn:Hg;
      simpl; [|by intros [= <- <-]].
    destruct Hinv as (Hs & Ho & Hobj & Hd1 & Hd2 & Hd3 & Hd4).
    rewrite (Hobj _ _ Hg). simpl.
    assert (Hu : is_Some (mapState2UpdateFunc a !! FsmMap.state (fsm a))).
    { apply elem_of_dom. rewrite <- Hd1. apply elem_of_dom. by exists s. }
    destruct Hu as [fu Hu]. rewrite Hu.
    intros Hr. apply call_func_Running in Hr as [-> _].
    unfold agent_inv. auto 10.
  - intros name dt a' w' Hr.
    by rewrite (proj1 (OnUpdateFsmState_inv a name dt w Hinv a' w' Hr)).
  - intros name from a' w'. simpl.
    destruct (mapState2EnterFunc a !! name) as [f|];
      [|by intros [= <- <-]].
    intros Hr. by apply call_func_Running in Hr as [-> _].
  - intros name to a' w'. simpl.
    destruct (mapState2ExitFunc a !! name) as [f|];
      [|by intros [= <- <-]].
    intros Hr. by apply call_func_Running in Hr as [-> _].
  - intros name evt param a' w'. simpl.
    destruct (mapName2FsmActionFunc a !! name) as [[f|]|]; simpl;
      [|discriminate|]; by intros [= <- <-].
Qed.

(** X24.  [Update] of an agent never ticks a behavior tree, and neither does a
    direct call of [OnUpdateFsmState].  The machine is in
    the state [AGENT_STATE_IDLE]; if that state has been added, [Update]
    calls its update function, and panics if that function is [nil], also
    when the state has a tree; if not, [Update] does nothing.  In no case
    is a tree executed: the agent comes back as it was and no leaf handler
    has been called. *)
Theorem Update_never_ticks_a_tree a dt w :
  agent_inv a ->
  Update a dt w =
    match mapState2UpdateFunc a !! AGENT_STATE_IDLE with
    | Some (Some f) => Running a (mkWorld (f dt (ext w)) (trace w))
    | Some None => Panicked
    | None => Running a w
    end /\
  (forall a' w', Update a dt w = Running a' w' ->
   a' = a /\ trace w' = trace w) /\
  (forall name a' w',
   OnUpdateFsmState name dt (Running a w) = Running a' w' ->
   a' = a /\ trace w' = trace w) /\
  (forall t, mapState2BTree a !! AGENT_STATE_IDLE = Some (Some t) ->
   mapState2UpdateFunc a !! AGENT_STATE_IDLE = Some None ->
   Update a dt w = Panicked) /\
  (mapState2UpdateFunc a !! AGENT_STATE_IDLE = None <->
   mapState2BTree a !! AGENT_STATE_IDLE = None).
Proof.
  intros Hinv. pose proof Hinv as (Hs & Ho & Hobj & Hd1 & Hd2 & Hd3 & Hd4).
  assert (Heq : Update a dt w =
    match mapState2UpdateFunc a !! AGENT_STATE_IDLE with
    | Some (Some f) => Running a (mkWorld (f dt (ext w)) (trace w))
    | Some None => Panicked
    | None => Running a w
    end).
  { unfold Update, FsmMap.Update. rewrite Hs.
    destruct (FsmMap.GetState (fsm a) AGENT_STATE_IDLE) as [s|] eqn:Hg; simpl.
    - assert (Hu : is_Some (mapState2UpdateFunc a !! AGENT_STATE_IDLE)).
      { apply elem_of_dom. rewrite <- Hd1. apply elem_of_dom. by exists s. }
      destruct Hu as [fu Hu]. rewrite (Hobj _ _ Hg), Hu. simpl. rewrite Hu.
      by destruct fu.
    - assert (Hu : mapState2UpdateFunc a !! AGENT_STATE_IDLE = None).
      { apply not_elem_of_dom. rewrite <- Hd1. by apply not_elem_of_dom. }
      by rewrite Hu. }
  refine (conj Heq (conj _ (conj _ (conj _ _)))).
  - intros a' w'. rewrite Heq.
    destruct (mapState2UpdateFunc a !! AGENT_STATE_IDLE) as [[f|]|];
      [|discriminate|]; by intros [= <- <-].
  - intros name. by apply OnUpdateFsmState_inv.
  - intros t _ Hu. by rewrite Heq, Hu.
  - rewrite <- !not_elem_of_dom. by rewrite Hd2.
Qed.

(** X25.  Registration in the agent.  The agent checks the name before the
    machine does, with its own errors: the empty name is "state is nil"
    for a state and "action is nil" for an action and for a transition
    alike, so that the machine's [ErrNameLenZero] never comes out of
    [AddTransition], while its [ErrTranNil] does.  A handler of a leaf
    action is registered once: the first [AddBNodeActionHandleFunc] of an
    id wins and every later one is refused, whereas [AddAction] of a name
    that is taken overwrites the function. *)
Theorem agent_registration a :
  (forall t fe fu fx,
   AddState a "" t fe fu fx = (Some (errors_New "state is nil"), a)) /\
  (forall f, AddAction a "" f = (Some (errors_New "action is nil"), a)) /\
  (forall t, AddTransition a "" t = (Some (errors_New "action is nil"), a)) /\
  (forall name t,
   fst (AddTransition a name t) <> Some (fsm_error ErrNameLenZero)) /\
  (forall name, name <> "" ->
   AddTransition a name None = (Some (fsm_error ErrTranNil), a)) /\
  (forall i h h', mapId2BNodeActionFunc a !! i = None ->
   fst (AddBNodeActionHandleFunc a i h) = None /\
   mapId2BNodeActionFunc (snd (AddBNodeActionHandleFunc a i h)) !! i
     = Some h /\
   AddBNodeActionHandleFunc (snd (AddBNodeActionHandleFunc a i h)) i h' =
     (Some (errors_New "handle func exist"),
      snd (AddBNodeActionHandleFunc a i h))) /\
  (forall name f f', name <> "" ->
   mapName2FsmActionFunc
     (snd (AddAction (snd (AddAction a name f)) name f')) !! name
   = Some f').
Proof.
  refine (conj _ (conj _ (conj _ (conj _ (conj _ (conj _ _)))))).
  - reflexivity.
  - reflexivity.
  - reflexivity.
  - intros name t. unfold AddTransition.
    destruct (len0 name) eqn:Hn; [done|]. simpl.
    unfold FsmMap.AddTransition. rewrite Hn. by destruct t.
  - intros name Hn. apply len0_false in Hn. unfold AddTransition.
    rewrite Hn. unfold FsmMap.AddTransition. rewrite ?Hn. simpl.
    by destruct a.
  - intros i h h' Hi. unfold AddBNodeActionHandleFunc. rewrite Hi. simpl.
    by rewrite lookup_insert_eq.
  - intros name f f' Hn. apply len0_false in Hn. unfold AddAction.
    rewrite Hn. simpl. rewrite ?Hn. simpl. by rewrite lookup_insert_eq.
Qed.

End AgentProperties.

(** ** More runs of the machine of the examples *)

Section FsmExtraRuns.

Import Fsm Examples.

(** The started machine with two transitions out of A on go, the first to
    B and the second back to A. *)
Definition fsm_two : FSM Z Z :=
  snd (AddTransition (fsm_started "B" "") "A" "go" "A" "pass").

(** A [Trigger] on an event without transition, a [PopState] on the empty
    stack and a [Start] without name fail and change nothing. *)
Lemma failed_call_changes_nothing_witness :
  (err_of (Trigger (fsm_started "B" "pass") "stop" [] w_started)
     = Some ErrTranNotExist /\
   fsm_of (Trigger (fsm_started "B" "pass") "stop" [] w_started)
     = fsm_started "B" "pass" /\
   world_of (Trigger (fsm_started "B" "pass") "stop" [] w_started)
     = w_started) /\
  world_of (PopState (fsm_started "B" "pass") w_started) = w_started /\
  world_of (Start (fsm_started "B" "pass") "" w_started) = w_started.
Proof.
  destruct (failed_call_changes_nothing (fsm_started "B" "pass") w_started)
    as (Ht & Hp & Hs).
  refine (conj (conj eq_refl _) (conj _ _)).
  - apply (Ht "stop" []). discriminate.
  - apply Hp. discriminate.
  - apply (Hs ""). discriminate.
Defined.

(** Registering C, looking it up and removing it again. *)
Lemma state_registry_witness :
  GetState (snd (AddState fsm_AB "C" (Some (counting_state "C" 5)))) "C"
    = Some (counting_state "C" 5) /\
  GetState (snd (AddState fsm_AB "C" (Some (counting_state "C" 5)))) "A"
    = GetState fsm_AB "A" /\
  GetState (RemoveState fsm_AB "A") "A" = None /\
  RemoveState fsm_AB "C" = fsm_AB /\
  AddState fsm_AB "C" None = (Some ErrStatNil, fsm_AB).
Proof.
  destruct (state_registry fsm_AB "C" (counting_state "C" 5) "C")
    as (H1 & _ & H3 & _ & _ & H6).
  destruct (state_registry fsm_AB "C" (counting_state "C" 5) "A")
    as (H1' & _).
  destruct (state_registry fsm_AB "A" (counting_state "A" 1) "A")
    as (_ & H2 & _).
  refine (conj _ (conj _ (conj _ (conj _ _)))).
  - destruct H1 as [_ H]; [done|]. by rewrite H.
  - destruct H1' as [_ H]; [done|]. by rewrite H.
  - by rewrite H2.
  - by apply H3.
  - by apply H6.
Defined.

Lemma action_registry_witness :
  GetAction (snd (AddAction fsm_AB "veto" (Some (const_gate "veto" true))))
            "veto"
    = Some (const_gate "veto" true) /\
  GetAction (RemoveAction fsm_AB "pass") "pass" = None /\
  GetAction (RemoveAction fsm_AB "pass") "veto" = GetAction fsm_AB "veto" /\
  AddAction fsm_AB "x" None = (Some ErrActNil, fsm_AB).
Proof.
  destruct (action_registry fsm_AB "veto" (const_gate "veto" true) "veto")
    as (H1 & _).
  destruct (action_registry fsm_AB "pass" (const_gate "pass" true) "pass")
    as (_ & H2 & _).
  destruct (action_registry fsm_AB "pass" (const_gate "pass" true) "veto")
    as (_ & H2' & _).
  destruct (action_registry fsm_AB "x" (const_gate "x" true) "x")
    as (_ & _ & _ & _ & H5).
  refine (conj _ (conj _ (conj _ _))).
  - destruct H1 as [_ H]; [done|]. by rewrite H.
  - by rewrite H2.
  - by rewrite H2'.
  - by apply H5.
Defined.

(** The second transition out of A on go is stored and not found. *)
Lemma AddTransition_GetTransition_witness :
  length (transitions fsm_two) = 2%nat /\
  GetTransition fsm_two "A" "go" = Some (NewFSMTransition "A" "go" "B" "") /\
  GetTransition (snd (AddTransition fsm_two "B" "back" "A" "")) "B" "back"
    = Some (NewFSMTransition "B" "back" "A" "").
Proof.
  pose proof (AddTransition_GetTransition (fsm_started "B" "")
                "A" "go" "A" "pass" "A" "go") as H1.
  pose proof (AddTransition_GetTransition fsm_two
                "B" "back" "A" "" "B" "back") as H2.
  refine (conj eq_refl (conj _ _)).
  - unfold fsm_two. by rewrite H1.
  - by rewrite H2.
Defined.

(** Removing the transition out of A on go uncovers the second one. *)
Lemma RemoveTransition_spec_witness :
  GetTransition (RemoveTransition fsm_two "A" "go") "A" "go"
    = Some (NewFSMTransition "A" "go" "A" "pass") /\
  RemoveTransition fsm_two "B" "go" = fsm_two /\
  GetTransition (RemoveTransition fsm_two "A" "stop") "A" "go"
    = GetTransition fsm_two "A" "go".
Proof.
  destruct (RemoveTransition_spec fsm_two "A" "go") as (_ & _ & H3).
  destruct (RemoveTransition_spec fsm_two "B" "go") as (_ & H2 & _).
  destruct (RemoveTransition_spec fsm_two "A" "stop") as (H1 & _).
  refine (conj _ (conj _ _)).
  - destruct (H3 (NewFSMTransition "A" "go" "B" "") eq_refl)
      as (l1 & l2 & Hl & Hl1 & Hr & Hg).
    rewrite Hg. vm_compute in Hl.
    destruct l1 as [|t l1].
    + injection Hl as <-. reflexivity.
    + exfalso. injection Hl as <- _. inversion Hl1. discriminate.
  - by apply H2.
  - by apply H1.
Defined.

(** From A to B and back. *)
Lemma Trigger_then_PopState_witness :
  fsm_of (PopState (fsm_of (Trigger (fsm_started "B" "pass") "go" [7]
                              w_started))
                   (world_of (Trigger (fsm_started "B" "pass") "go" [7]
                                w_started)))
  = fsm_started "B" "pass".
Proof.
  assert (Hg : not_vetoed (fsm_started "B" "pass")
                 (NewFSMTransition "A" "go" "B" "pass") "go" [7] w_started)
    by reflexivity.
  destruct (Trigger_then_PopState (fsm_started "B" "pass") "go" [7] w_started
              (NewFSMTransition "A" "go" "B" "pass")
              (counting_state "A" 1) (counting_state "B" 10)
              eq_refl eq_refl eq_refl Hg) as (_ & H & _).
  exact H.
Defined.

Lemma fsm_inv_started : fsm_inv (fsm_started "B" "pass").
Proof.
  split; [reflexivity|]. split; [constructor|].
  left. by exists (counting_state "A" 1).
Qed.

(** The started machine satisfies the invariant, and so does what a
    [Trigger] on go makes of it. *)
Lemma fsm_inv_kept_witness :
  fsm_inv (fsm_started "B" "pass") /\
  fsm_inv (fsm_of (Trigger (fsm_started "B" "pass") "go" [7] w_started)).
Proof.
  split; [exact fsm_inv_started|].
  destruct (fsm_inv_kept (fsm_started "B" "pass") w_started) as (_ & H).
  destruct (H fsm_inv_started) as (_ & _ & _ & _ & _ & _ & _ & _ & Ht & _).
  exact (Ht "go" [7]).
Defined.

Lemma fsm_inv_no_missing_state_witness :
  fsm_inv (fsm_started "B" "pass") /\
  err_of (PopState (fsm_started "B" "pass") w_started) = Some ErrNoOldStat /\
  err_of (Trigger (fsm_started "B" "pass") "go" [7] w_started)
    <> Some ErrFromStatNotExist.
Proof.
  split; [exact fsm_inv_started|].
  destruct (fsm_inv_no_missing_state (fsm_started "B" "pass") w_started
              fsm_inv_started) as (_ & Hp & Ht).
  split; [by apply Hp | apply Ht].
Defined.

End FsmExtraRuns.

(** ** More runs of the trees of the examples *)

Section BtExtraRuns.

Import Bt BtExamples.

Definition sel_base : BaseBehaviorNode :=
  base_of (NewSelectNode (W:=Z) (Param:=Z) 30).

(** A leaf without listener. *)
Definition deaf_leaf : BehaviorNode Z Z := NewAgentBNode 9 9 0 None [].

Definition leaf_base (i : Z) : BaseBehaviorNode := NewBaseBehaviorNode i i 0.

(** A selector over a failing and a succeeding leaf: the first tick leaves
    it executing, the second makes it succeed. *)
Lemma SelectNode_Execute_tick_witness :
  GetState (fst (Execute (SelectNode sel_base
                            [leaf 1 BNODE_STAT_FAIL; leaf 2 BNODE_STAT_SUCC])
                         w0))
    = BNODE_STAT_EXECUTING /\
  GetState (fst (Execute (SelectNode sel_base [leaf 2 BNODE_STAT_SUCC]) w0))
    = BNODE_STAT_SUCC.
Proof.
  split.
  - pose proof (SelectNode_Execute_tick sel_base [] (leaf 1 BNODE_STAT_FAIL)
                  [leaf 2 BNODE_STAT_SUCC] w0 eq_refl eq_refl eq_refl) as H.
    cbv zeta in H. destruct H as (_ & _ & _ & _ & _ & H).
    apply H; [reflexivity | discriminate].
  - pose proof (SelectNode_Execute_tick sel_base [] (leaf 2 BNODE_STAT_SUCC)
                  [] w0 eq_refl eq_refl eq_refl) as H.
    cbv zeta in H. destruct H as (_ & _ & _ & H & _).
    apply H. reflexivity.
Defined.

(** The second tick of the sequence over the three leaves leaves the first
    leaf, completed by the first tick, as it is. *)
Lemma completed_children_untouched_witness :
  children (fst (Execute_n 2 seq3 w0)) !! 0%nat
  = children (fst (Execute seq3 w0)) !! 0%nat.
Proof.
  destruct (completed_children_untouched (fst (Execute seq3 w0))
              (snd (Execute seq3 w0))) as (_ & H).
  exact (H 0%nat (fst (Execute (leaf 1 BNODE_STAT_SUCC) w0))
           eq_refl eq_refl).
Defined.

(** After its second tick the sequence over the three leaves has failed,
    and it has a failed child. *)
Lemma SequenceNode_result_witness :
  exists c,
    In c (children (fst (Execute_n 2 seq3 w0))) /\
    GetState c = BNODE_STAT_FAIL.
Proof.
  destruct (SequenceNode_result (SetState seq_base BNODE_STAT_EXECUTING)
              (children (fst (Execute seq3 w0))) (snd (Execute seq3 w0))
              eq_refl) as (_ & _ & H & _).
  exact (H eq_refl).
Defined.

Lemma SelectNode_result_witness :
  exists c,
    In c (children (fst (Execute (SelectNode sel_base
                                    [leaf 2 BNODE_STAT_SUCC]) w0))) /\
    GetState c = BNODE_STAT_SUCC.
Proof.
  destruct (SelectNode_result sel_base [leaf 2 BNODE_STAT_SUCC] w0 eq_refl)
    as (_ & H & _).
  exact (H eq_refl).
Defined.

Lemma ParallelNode_result_witness :
  exists c,
    In c (children (fst (Execute par3 w0))) /\
    GetState c = BNODE_STAT_FAIL.
Proof.
  destruct (ParallelNode_result par_base three_leaves w0 eq_refl)
    as (_ & _ & H & _).
  exact (H eq_refl).
Defined.

Lemma leaf_succeeding (i : Z) : succeeding_leaf (leaf i BNODE_STAT_SUCC).
Proof.
  exists (leaf_base i), (const_listener BNODE_STAT_SUCC), []. done.
Qed.

(** Two succeeding leaves: the sequence takes two ticks and is executing
    after the first, the parallel node takes one. *)
Lemma sequence_of_succeeding_leaves_witness :
  GetState (fst (Execute_n 2
                   (SequenceNode seq_base
                      [leaf 1 BNODE_STAT_SUCC; leaf 2 BNODE_STAT_SUCC]) w0))
    = BNODE_STAT_SUCC /\
  GetState (fst (Execute_n 1
                   (SequenceNode seq_base
                      [leaf 1 BNODE_STAT_SUCC; leaf 2 BNODE_STAT_SUCC]) w0))
    = BNODE_STAT_EXECUTING.
Proof.
  destruct (sequence_of_succeeding_leaves
              [leaf 1 BNODE_STAT_SUCC; leaf 2 BNODE_STAT_SUCC]
              [] seq_base w0) as (H1 & _ & H3).
  - repeat (constructor; [apply leaf_succeeding|]). constructor.
  - discriminate.
  - reflexivity.
  - reflexivity.
  - split; [exact H1|]. apply (H3 1%nat). simpl. lia.
Defined.

Lemma parallel_of_succeeding_leaves_witness :
  GetState (fst (Execute (ParallelNode par_base
                            [leaf 1 BNODE_STAT_SUCC; leaf 2 BNODE_STAT_SUCC])
                         w0))
    = BNODE_STAT_SUCC /\
  count_calls is_OnBNodeAction
    (trace (snd (Execute (ParallelNode par_base
                            [leaf 1 BNODE_STAT_SUCC; leaf 2 BNODE_STAT_SUCC])
                         w0)))
    = 2%nat.
Proof.
  destruct (parallel_of_succeeding_leaves par_base
              [leaf 1 BNODE_STAT_SUCC; leaf 2 BNODE_STAT_SUCC] w0 eq_refl)
    as (H1 & H2).
  - repeat (constructor; [right; apply leaf_succeeding|]). constructor.
  - split; [exact H1 | exact H2].
Defined.

(** A sequence with a leaf without listener in front of a succeeding leaf
    is still executing after five ticks, and the succeeding leaf has not
    run. *)
Lemma stuck_composites_witness :
  Execute_n 5 (SequenceNode seq_base [deaf_leaf; leaf 2 BNODE_STAT_SUCC]) w0
  = (SequenceNode (SetState seq_base BNODE_STAT_EXECUTING)
       [deaf_leaf; leaf 2 BNODE_STAT_SUCC], w0).
Proof.
  destruct (stuck_composites seq_base [] deaf_leaf [leaf 2 BNODE_STAT_SUCC]
              w0 4 eq_refl eq_refl) as (H & _).
  destruct (H eq_refl eq_refl) as (Hseq & _).
  exact Hseq.
Defined.

(** Children by id under the sequence of the three leaves. *)
Lemma children_by_id_witness :
  GetChildByID (AddChild seq3 (Some (leaf 2 BNODE_STAT_SUCC))) 2
    = Some (leaf 2 BNODE_STAT_FAIL) /\
  GetChildByID (RemoveChildByID seq3 2) 3 = Some (leaf 3 BNODE_STAT_SUCC) /\
  RemoveChildByID seq3 4 = seq3 /\
  AddChild (leaf 1 BNODE_STAT_SUCC) (Some (leaf 2 BNODE_STAT_SUCC))
    = leaf 1 BNODE_STAT_SUCC.
Proof.
  destruct (children_by_id seq3 (leaf 2 BNODE_STAT_SUCC) 2 3)
    as (_ & _ & H3 & H4 & _).
  destruct (children_by_id seq3 (leaf 2 BNODE_STAT_SUCC) 4 3)
    as (_ & _ & _ & _ & H5 & _).
  destruct (children_by_id (leaf 1 BNODE_STAT_SUCC) (leaf 2 BNODE_STAT_SUCC)
              2 3) as (_ & H2 & _).
  refine (conj _ (conj _ (conj _ _))).
  - destruct (H3 eq_refl) as [_ H]. by rewrite H.
  - rewrite H4; [reflexivity | discriminate].
  - by apply H5.
  - by apply H2.
Defined.

(** The step counter at its maximum wraps to zero. *)
Lemma UpdateStep_wraps_witness :
  step (UpdateStep (mkBase 1 BNODE_TYPE_ACTION 1 BNODE_STAT_EXECUTING
                      (2 ^ 32 - 1) 0)) = 0 /\
  step (Nat.iter 3 UpdateStep
          (mkBase 1 BNODE_TYPE_ACTION 1 BNODE_STAT_EXECUTING (2 ^ 32 - 2) 0))
    = 1.
Proof.
  destruct (UpdateStep_wraps
              (mkBase 1 BNODE_TYPE_ACTION 1 BNODE_STAT_EXECUTING
                 (2 ^ 32 - 1) 0) 0) as (_ & _ & H3 & _);
    [simpl; lia|].
  destruct (UpdateStep_wraps
              (mkBase 1 BNODE_TYPE_ACTION 1 BNODE_STAT_EXECUTING
                 (2 ^ 32 - 2) 0) 3) as (H1 & _);
    [simpl; lia|].
  split; [by apply H3 | by rewrite H1].
Defined.

End BtExtraRuns.

(** ** Runs of the earlier machine and of an agent *)

Module MapExamples.

Import Fsm.

(** States that are their names and add one to a counter in every hook;
    actions that are their answers. *)
#[export] Instance name_state : FsmMap.FSMStateImpl Z string :=
  FsmMap.Build_FSMStateImpl Z string
    (fun s => s) (fun _ _ c => c + 1) (fun _ _ c => c) (fun _ _ c => c + 1).

#[export] Instance answer_action : FsmMap.FSMActionImpl Z Z bool :=
  FsmMap.Build_FSMActionImpl Z Z bool
    (fun _ => "") (fun b _ _ c => (b, c)).

Definition tAB : FSMTransition := NewFSMTransition "A" "go" "B" "".
Definition tAC : FSMTransition := NewFSMTransition "A" "go" "C" "".
Definition tBA : FSMTransition := NewFSMTransition "B" "go" "A" "".

Definition fsm_ABC : FsmMap.FSM string bool :=
  let f := FsmMap.NewFSM 1 "A" in
  let f := snd (FsmMap.AddState f "A" (Some "A")) in
  let f := snd (FsmMap.AddState f "B" (Some "B")) in
  snd (FsmMap.AddState f "C" (Some "C")).

(** One transition out of A on go, and one out of B. *)
Definition fsm_one_way : FsmMap.FSM string bool :=
  let f := snd (FsmMap.AddTransition fsm_ABC "t1" (Some tAB)) in
  snd (FsmMap.AddTransition f "t2" (Some tBA)).

(** Two transitions out of A on go, under two names. *)
Definition fsm_two_ways : FsmMap.FSM string bool :=
  let f := snd (FsmMap.AddTransition fsm_ABC "t1" (Some tAB)) in
  snd (FsmMap.AddTransition f "t2" (Some tAC)).

End MapExamples.

Section MapRuns.

Import Fsm MapExamples.

Lemma fsm_one_way_transitions name t :
  FsmMap.mapName2transition fsm_one_way !! name = Some t ->
  t = tAB \/ t = tBA.
Proof.
  unfold fsm_one_way, fsm_ABC. simpl.
  intros H. apply lookup_insert_Some in H as [[_ <-]|[_ H]]; [by right|].
  apply lookup_insert_Some in H as [[_ <-]|[_ H]]; [by left|].
  by rewrite lookup_empty in H.
Qed.

(** With one transition out of A on go, both enumerations of the two
    transitions of the machine give the same [Trigger]. *)
Lemma Trigger_order_independent_witness :
  FsmMap.enumerates fsm_one_way [tAB; tBA] /\
  FsmMap.enumerates fsm_one_way [tBA; tAB] /\
  FsmMap.Trigger fsm_one_way [tAB; tBA] "go" [] 0 =
  FsmMap.Trigger fsm_one_way [tBA; tAB] "go" ([] : list Z) 0.
Proof.
  assert (H1 : FsmMap.enumerates fsm_one_way [tAB; tBA]).
  { unfold FsmMap.enumerates. vm_compute.
    first [reflexivity | apply perm_swap]. }
  assert (H2 : FsmMap.enumerates fsm_one_way [tBA; tAB]).
  { unfold FsmMap.enumerates. vm_compute.
    first [reflexivity | apply perm_swap]. }
  refine (conj H1 (conj H2 _)).
  apply (Trigger_order_independent fsm_one_way _ _ "go" [] 0 H1 H2).
  intros n1 n2 t1 t2 Hn1 Hn2 Hm1 Hm2.
  destruct (fsm_one_way_transitions _ _ Hn1) as [->| ->];
    destruct (fsm_one_way_transitions _ _ Hn2) as [->| ->];
    try reflexivity; discriminate.
Defined.

(** With two transitions out of A on go, there is an enumeration under
    which [Trigger] goes to C, and one under which it goes to B. *)
Lemma Trigger_takes_any_match_witness :
  (exists order,
     FsmMap.enumerates fsm_two_ways order /\
     FsmMap.GetCurState
       (snd (fst (FsmMap.Trigger fsm_two_ways order "go" ([] : list Z) 0)))
     = "C") /\
  (exists order,
     FsmMap.enumerates fsm_two_ways order /\
     FsmMap.GetCurState
       (snd (fst (FsmMap.Trigger fsm_two_ways order "go" ([] : list Z) 0)))
     = "B").
Proof.
  split.
  - destruct (Trigger_takes_any_match fsm_two_ways "t2" tAC "go"
                ([] : list Z) 0 "A" "C")
      as (order & He & _ & Hs); try reflexivity; try discriminate.
    exists order. by split.
  - destruct (Trigger_takes_any_match fsm_two_ways "t1" tAB "go"
                ([] : list Z) 0 "A" "B")
      as (order & He & _ & Hs); try reflexivity; try discriminate.
    exists order. by split.
Defined.

End MapRuns.

Module AgentExamples.

Import Agent.

(** An agent whose idle state has the tree with one leaf and an update
    function [fu]. *)
Definition idle_agent (fu : option (Z -> Z -> Z)) : BaseAgent Z Z :=
  snd (AddState (NewBaseAgent 1) AGENT_STATE_IDLE
         (Some BtExamples.tree1) None fu None).

End AgentExamples.

Section AgentRuns.

Import Fsm Agent AgentExamples.

Lemma agent_inv_idle_agent fu : agent_inv (idle_agent fu).
Proof.
  unfold agent_inv, idle_agent. simpl.
  rewrite !dom_insert_L, !dom_empty_L.
  repeat split; try done.
  intros name s H. apply lookup_insert_Some in H as [[<- <-]|[_ H]]; [done|].
  by rewrite lookup_empty in H.
Qed.

(** The invariant on the agent with the idle state, and after a second
    state is added to it. *)
Lemma agent_inv_kept_witness :
  agent_inv (idle_agent None) /\
  agent_inv (snd (AddState (idle_agent None) "walk" None None None None)).
Proof.
  split; [apply agent_inv_idle_agent|].
  destruct (agent_inv_kept (idle_agent None) BtExamples.w0) as (_ & H).
  destruct (H (agent_inv_idle_agent None)) as (Ha & _).
  exact (Ha "walk" None None None None).
Defined.

(** With an update function the idle state is updated and its tree is left
    alone; without one, [Update] panics although the state has a tree. *)
Lemma Update_never_ticks_a_tree_witness :
  Update (idle_agent (Some (fun dt c => c + dt))) 5 BtExamples.w0
    = Running (idle_agent (Some (fun dt c => c + dt))) (mkWorld 5 []) /\
  mapState2BTree (idle_agent None) !! AGENT_STATE_IDLE
    = Some (Some BtExamples.tree1) /\
  Update (idle_agent None) 5 BtExamples.w0 = Panicked.
Proof.
  destruct (Update_never_ticks_a_tree
              (idle_agent (Some (fun dt c => c + dt))) 5 BtExamples.w0
              (agent_inv_idle_agent _)) as (H1 & _).
  destruct (Update_never_ticks_a_tree (idle_agent None) 5 BtExamples.w0
              (agent_inv_idle_agent _)) as (_ & _ & _ & H3 & _).
  refine (conj _ (conj eq_refl _)).
  - rewrite H1. reflexivity.
  - exact (H3 BtExamples.tree1 eq_refl eq_refl).
Defined.

(** The handler of a leaf action cannot be replaced; the function of an
    action can. *)
Lemma agent_registration_witness :
  fst (AddBNodeActionHandleFunc
         (snd (AddBNodeActionHandleFunc (NewBaseAgent (U:=Z) (Param:=Z) 1)
                 3 None))
         3 None)
    = Some (errors_New "handle func exist") /\
  AddTransition (NewBaseAgent (U:=Z) (Param:=Z) 1) "t" None
    = (Some (fsm_error ErrTranNil), NewBaseAgent 1).
Proof.
  destruct (agent_registration (NewBaseAgent (U:=Z) (Param:=Z) 1))
    as (_ & _ & _ & _ & H5 & H6 & _).
  split.
  - destruct (H6 3 None None eq_refl) as (_ & _ & H). by rewrite H.
  - apply H5. discriminate.
Defined.

End AgentRuns.
